(** * Verification of deeplearning/classifiers/fc_net.py

    A shallow embedding of [TwoLayerNet] and [FullyConnectedNet]: the two
    constructors and the two [loss] methods, with Python's dictionaries as
    [gmap string _], Python's exceptions as an error result, the mutable
    attributes of [self] as a threaded state, and the calls into
    [deeplearning.layers] / [deeplearning.layer_utils] and NumPy as the
    operations of an abstract [Backend], each layer call being recorded in a
    call log. *)

From Stdlib Require Import ZArith QArith Lia.
From stdpp Require Import base option list list_numbers strings pretty gmap.

Local Open Scope Z_scope.

(** ** Python prelude *)

(** The exceptions the embedded code can raise. *)
Inductive exn : Type :=
  | IndexError   (* list index out of range *)
  | KeyError     (* missing dictionary key *)
  | ValueError   (* NumPy: bad shape, negative dimension, ... *)
  | TypeError    (* an operation applied to [None] *)
  | LayerError.  (* anything raised inside a layer primitive *)

(** The result of running a piece of Python: a value or a raised exception. *)
Inductive outcome (A : Type) : Type :=
  | Ok (a : A)
  | Raise (e : exn).
Arguments Ok {A} a.
Arguments Raise {A} e.

Definition returns {A} (r : outcome A) : Prop := ∃ a, r = Ok a.

#[global] Instance outcome_ret : MRet outcome := λ A a, Ok a.
#[global] Instance outcome_bind : MBind outcome := λ A B f m,
  match m with
  | Ok a => f a
  | Raise e => Raise e
  end.

(** [l[i]] on a Python list: negative indices count from the end, anything
    else out of range raises [IndexError]. *)
Definition py_index {A} (l : list A) (i : Z) : outcome A :=
  let n := Z.of_nat (length l) in
  let j := if i <? 0 then i + n else i in
  if (j <? 0) || (n <=? j) then Raise IndexError
  else match l !! Z.to_nat j with
       | Some x => Ok x
       | None => Raise IndexError
       end.

(** [d[k]] on a Python dictionary. *)
Definition py_getitem {V} (d : gmap string V) (k : string) : outcome V :=
  match d !! k with
  | Some v => Ok v
  | None => Raise KeyError
  end.

(** [range(lo, hi)]. *)
Definition py_range (lo hi : Z) : list Z := seqZ lo (hi - lo).

(** The f-strings [f"W{index}"] and [f"b{index}"]. *)
Definition fstr (prefix : string) (index : Z) : string := prefix +:+ pretty index.

(** A [for] loop whose body may raise: the accumulator is the loop's state. *)
Fixpoint for_each {A B} (f : B → A → outcome B) (xs : list A) (acc : B) : outcome B :=
  match xs with
  | [] => Ok acc
  | x :: xs' => acc' ← f acc x; for_each f xs' acc'
  end.

(** The values stored in [dropout_param] and in the [bn_params] entries. *)
Inductive pyval : Type :=
  | PStr (s : string)
  | PNum (q : Q)
  | PInt (z : Z).

Abbreviation dict := (gmap string pyval).

(** ** The collaborators: NumPy and the layer primitives

    Everything [fc_net.py] imports.  The arrays, their arithmetic and the
    layer primitives stay abstract: the network code only composes them. *)
Class Backend : Type := {
  scalar : Type;     (* Python / NumPy floating-point scalars *)
  array : Type;      (* numpy.ndarray *)
  cache : Type;      (* the opaque cache a forward primitive returns *)
  labels : Type;     (* the label array y *)
  np_dtype : Type;   (* NumPy datatype objects *)
  rng : Type;        (* the state of NumPy's global random generator *)
  shape : array → list Z;
  (* np.random.normal(0, scale, size) *)
  np_random_normal : scalar → list Z → rng → outcome (array * rng);
  (* np.zeros(size) *)
  np_zeros : list Z → outcome array;
  (* a.astype(dtype) *)
  astype : array → np_dtype → array;
  (* a + b on arrays *)
  np_add : array → array → outcome array;
  (* s * a, a scalar times an array *)
  np_scale : scalar → array → array;
  (* np.linalg.norm(a, 'fro') *)
  np_linalg_norm_fro : array → outcome scalar;
  (* np.sum of a list of scalars *)
  np_sum : list scalar → scalar;
  (* x ** 2, x + y, x * y and the literal 0.5 on scalars *)
  s_sq : scalar → scalar;
  s_add : scalar → scalar → scalar;
  s_mul : scalar → scalar → scalar;
  s_half : scalar;
  (* deeplearning.layers and deeplearning.layer_utils *)
  affine_forward : array → array → array → outcome (array * cache);
  affine_relu_forward : array → array → array → outcome (array * cache);
  softmax_loss : array → labels → outcome (scalar * array);
  affine_backward : array → cache → outcome (array * array * array);
  affine_relu_backward : array → cache → outcome (array * array * array)
}.

(** ** Calls, and the monad of a method body *)

Section Calls.
Context `{B : Backend}.

(** What a call can be handed. *)
Inductive arg : Type :=
  | AArr (a : array)
  | ACache (c : cache)
  | ALabels (y : labels)
  | ADict (d : dict)
  | ANone.

Record call : Type := Call { fn : string; args : list arg }.

(** A run of a method body on [self]: its outcome, [self] afterwards (also
    when it raised) and the layer calls it made, in order. *)
Record run (S A : Type) : Type :=
  Run { outcome_of : outcome A; self_of : S; calls_of : list call }.
Arguments Run {S A} _ _ _.
Arguments outcome_of {S A} _.
Arguments self_of {S A} _.
Arguments calls_of {S A} _.

Definition M (S A : Type) : Type := S → run S A.

Definition m_ret {S A} (a : A) : M S A := λ s, Run (Ok a) s [].
Definition m_bind {S A C} (m : M S A) (f : A → M S C) : M S C := λ s,
  let r := m s in
  match outcome_of r with
  | Raise e => Run (Raise e) (self_of r) (calls_of r)
  | Ok a =>
      let r' := f a (self_of r) in
      Run (outcome_of r') (self_of r') (calls_of r ++ calls_of r')
  end.

(** Reading [self], assigning to it, running a computation that can only
    raise, and logging a layer call. *)
Definition m_get {S} : M S S := λ s, Run (Ok s) s [].
Definition m_modify {S} (f : S → S) : M S unit := λ s, Run (Ok tt) (f s) [].
Definition m_lift {S A} (r : outcome A) : M S A := λ s, Run r s [].
Definition m_call {S A} (name : string) (actuals : list arg) (r : outcome A) : M S A :=
  λ s, Run r s [Call name actuals].

Fixpoint m_for {S A C} (f : C → A → M S C) (xs : list A) (acc : C) : M S C :=
  match xs with
  | [] => m_ret acc
  | x :: xs' => m_bind (f acc x) (m_for f xs')
  end.

(** A list comprehension whose element expression may raise. *)
Fixpoint m_map {S A C} (f : A → M S C) (xs : list A) : M S (list C) :=
  match xs with
  | [] => m_ret []
  | x :: xs' => m_bind (f x) (λ c, m_bind (m_map f xs') (λ cs, m_ret (c :: cs)))
  end.

(** What a [loss] method returns: the scores (still [None] if no layer ran),
    or the pair of the loss and the gradient dictionary. *)
Inductive retval : Type :=
  | Scores (scores : option array)
  | LossGrads (loss : scalar) (grads : gmap string array).


Definition returned_grads (r : outcome retval) : bool :=
  match r with Ok (LossGrads _ _) => true | _ => false end.

(** [softmax_loss(scores, y)] on variables that may still hold [None]. *)
Definition call_softmax_loss {S} (scores : option array) (y : option labels)
  : M S (scalar * array) :=
  match scores, y with
  | Some scores, Some y =>
      m_call "softmax_loss" [AArr scores; ALabels y] (softmax_loss scores y)
  | _, _ =>
      m_call "softmax_loss"
        [from_option AArr ANone scores; from_option ALabels ANone y]
        (Raise TypeError)
  end.
End Calls.

Arguments Run {B S A} _ _ _.
Arguments outcome_of {B S A} _.
Arguments self_of {B S A} _.
Arguments calls_of {B S A} _.

Notation "x ⇐ m ; k" := (m_bind m (λ x, k))
  (at level 20, m at level 100, k at level 200, only parsing).
Notation "' pat ⇐ m ; k" := (m_bind m (λ x, match x with pat => k end))
  (at level 20, pat pattern, m at level 100, k at level 200, only parsing).

(** ** FullyConnectedNet *)

Module FullyConnectedNet.
Section WithBackend.
Context `{B : Backend}.

(** The attributes [__init__] assigns to [self].  [dropout_param] is an
    attribute that [loss] compares with [None], hence the [option]. *)
Record t : Type := Build {
  use_batchnorm : bool;
  use_dropout : bool;
  reg : scalar;
  num_layers : Z;
  dtype : np_dtype;
  params : gmap string array;
  dropout_param : option dict;
  bn_params : list dict
}.

Definition set_dropout_param (d : option dict) (self : t) : t :=
  Build (use_batchnorm self) (use_dropout self) (reg self) (num_layers self)
        (dtype self) (params self) d (bn_params self).

Definition set_bn_params (l : list dict) (self : t) : t :=
  Build (use_batchnorm self) (use_dropout self) (reg self) (num_layers self)
        (dtype self) (params self) (dropout_param self) l.

(** The right-hand side of the assignment to [self.params[f"W{index}"]]. *)
Definition init_weight (hidden_dims : list Z) (input_dim num_classes : Z)
    (weight_scale : scalar) (num_layers : Z) (index : Z) (g : rng)
  : outcome (array * rng) :=
  if index =? 1 then
    h ← py_index hidden_dims (index - 1);
    np_random_normal weight_scale [input_dim; h] g
  else if index =? num_layers then
    h ← py_index hidden_dims (index - 2);
    np_random_normal weight_scale [h; num_classes] g
  else
    h1 ← py_index hidden_dims (index - 2);
    h2 ← py_index hidden_dims (index - 1);
    np_random_normal weight_scale [h1; h2] g.

(** The right-hand side of the assignment to [self.params[f"b{index}"]]. *)
Definition init_bias (hidden_dims : list Z) (num_classes : Z)
    (num_layers : Z) (index : Z) : outcome array :=
  if index =? num_layers then np_zeros [num_classes]
  else h ← py_index hidden_dims (index - 1); np_zeros [h].

(** One iteration of the initialisation loop, on [self.params] and the
    generator state. *)
Definition init_layer (hidden_dims : list Z) (input_dim num_classes : Z)
    (weight_scale : scalar) (num_layers : Z)
    (st : gmap string array * rng) (index : Z)
  : outcome (gmap string array * rng) :=
  '(W, g) ← init_weight hidden_dims input_dim num_classes weight_scale
                        num_layers index st.2;
  let params := <[fstr "W" index := W]> st.1 in
  b ← init_bias hidden_dims num_classes num_layers index;
  Ok (<[fstr "b" index := b]> params, g).

(** [dropout > 0] on Python numbers. *)
Definition py_gt0 (q : Q) : bool := negb (Qle_bool q 0).

Definition __init__ (hidden_dims : list Z) (input_dim num_classes : Z)
    (dropout : Q) (use_batchnorm : bool) (reg weight_scale : scalar)
    (dtype : np_dtype) (seed : option Z) (g : rng) : outcome (t * rng) :=
  let use_dropout := py_gt0 dropout in
  let num_layers := 1 + Z.of_nat (length hidden_dims) in
  '(params, g) ← for_each
      (init_layer hidden_dims input_dim num_classes weight_scale num_layers)
      (py_range 1 (num_layers + 1)) (∅, g);
  let dropout_param : dict :=
    if use_dropout then
      let d : dict := <["p" := PNum dropout]> {["mode" := PStr "train"]} in
      match seed with
      | Some s => <["seed" := PInt s]> d
      | None => d
      end
    else ∅ in
  let bn_params : list dict :=
    if use_batchnorm
    then (λ _, {["mode" := PStr "train"]}) <$> py_range 0 (num_layers - 1)
    else [] in
  let params := (λ v, astype v dtype) <$> params in
  Ok (Build use_batchnorm use_dropout reg num_layers dtype params
            (Some dropout_param) bn_params, g).

(** [self.params[key]]. *)
Definition get_param (key : string) : M t array :=
  self ⇐ m_get; m_lift (py_getitem (params self) key).

(** The body of the forward loop; the loop state is
    [(output, scores, cache_list)]. *)
Definition forward_layer (st : array * option array * list cache) (index : Z)
  : M t (array * option array * list cache) :=
  let '(output, scores, cache_list) := st in
  self ⇐ m_get;
  if negb (index =? num_layers self) then
    W ⇐ get_param (fstr "W" index);
    b ⇐ get_param (fstr "b" index);
    '(output, cache) ⇐ m_call "affine_relu_forward" [AArr output; AArr W; AArr b]
                          (affine_relu_forward output W b);
    m_ret (output, scores, cache_list ++ [cache])
  else
    W ⇐ get_param (fstr "W" index);
    b ⇐ get_param (fstr "b" index);
    '(scores, cache) ⇐ m_call "affine_forward" [AArr output; AArr W; AArr b]
                          (affine_forward output W b);
    m_ret (output, Some scores, cache_list ++ [cache]).

(** One element of the [regularization_norms] comprehension. *)
Definition regularization_norm (index : Z) : M t scalar :=
  W ⇐ get_param (fstr "W" index);
  n ⇐ m_lift (np_linalg_norm_fro W);
  m_ret (s_sq n).

(** The body of the backward loop; the loop state is [(dout, grads)]. *)
Definition backward_layer (cache_list : list cache)
    (st : array * gmap string array) (index : Z)
  : M t (array * gmap string array) :=
  let '(dout, grads) := st in
  self ⇐ m_get;
  c ⇐ m_lift (py_index cache_list (index - 1));
  '(dout, dW, db) ⇐
     (if index =? num_layers self
      then m_call "affine_backward" [AArr dout; ACache c] (affine_backward dout c)
      else m_call "affine_relu_backward" [AArr dout; ACache c]
                  (affine_relu_backward dout c));
  self ⇐ m_get;
  W ⇐ get_param (fstr "W" index);
  gW ⇐ m_lift (np_add dW (np_scale (reg self) W));
  let grads := <[fstr "W" index := gW]> grads in
  let grads := <[fstr "b" index := db]> grads in
  m_ret (dout, grads).

(** Lines 203-243 of [loss]: the forward pass, the early return of test
    mode, the loss and the backward pass.  [X] is already cast and [mode]
    already computed. *)
Definition loss_passes (X : array) (y : option labels) (mode : string)
  : M t retval :=
  self ⇐ m_get;
  '(_, scores, cache_list) ⇐
     m_for forward_layer (py_range 1 (num_layers self + 1)) (X, None, []);
  if String.eqb mode "test" then m_ret (Scores scores)
  else
    '(softmax, dout) ⇐ call_softmax_loss scores y;
    self ⇐ m_get;
    regularization_norms ⇐
       m_map regularization_norm (py_range 1 (num_layers self + 1));
    self ⇐ m_get;
    let loss := s_add softmax
                  (s_mul (s_mul s_half (reg self)) (np_sum regularization_norms)) in
    self ⇐ m_get;
    '(_, grads) ⇐
       m_for (backward_layer cache_list)
             (reverse (py_range 1 (num_layers self + 1))) (dout, ∅);
    m_ret (LossGrads loss grads).

(** Lines 192-201 of [loss], the cast of [X] and the two mode assignments,
    followed by the passes. *)
Definition loss (X : array) (y : option labels) : M t retval :=
  self ⇐ m_get;
  let X := astype X (dtype self) in
  let mode := match y with None => "test" | Some _ => "train" end in
  _ ⇐ m_modify (λ self,
        match dropout_param self with
        | Some d => set_dropout_param (Some (<["mode" := PStr mode]> d)) self
        | None => self
        end);
  _ ⇐ m_modify (λ self,
        if use_batchnorm self
        then set_bn_params ((λ bn_param : dict, <[mode := PStr mode]> bn_param)
                              <$> bn_params self) self
        else self);
  loss_passes X y mode.

End WithBackend.
End FullyConnectedNet.

(** ** TwoLayerNet *)

Module TwoLayerNet.
Section WithBackend.
Context `{B : Backend}.

Record t : Type := Build {
  params : gmap string array;
  reg : scalar
}.

(** The four keys first hold [None]; each is assigned an array before the
    constructor returns, in the order [W1], [b1], [W2], [b2]. *)
Definition __init__ (input_dim hidden_dim num_classes : Z)
    (weight_scale reg : scalar) (g : rng) : outcome (t * rng) :=
  '(W1, g) ← np_random_normal weight_scale [input_dim; hidden_dim] g;
  b1 ← np_zeros [hidden_dim];
  '(W2, g) ← np_random_normal weight_scale [hidden_dim; num_classes] g;
  b2 ← np_zeros [num_classes];
  let params : gmap string array :=
    <["b2" := b2]> (<["W2" := W2]> (<["b1" := b1]> (<["W1" := W1]> ∅))) in
  Ok (Build params reg, g).

(** [self.params[key]]. *)
Definition get_param (key : string) : M t array :=
  self ⇐ m_get; m_lift (py_getitem (params self) key).

Definition loss (X : array) (y : option labels) : M t retval :=
  W1 ⇐ get_param "W1";
  b1 ⇐ get_param "b1";
  '(hidden_layer_out, cache_hidden) ⇐
     m_call "affine_relu_forward" [AArr X; AArr W1; AArr b1]
            (affine_relu_forward X W1 b1);
  W2 ⇐ get_param "W2";
  b2 ⇐ get_param "b2";
  '(scores, cache_output) ⇐
     m_call "affine_forward" [AArr hidden_layer_out; AArr W2; AArr b2]
            (affine_forward hidden_layer_out W2 b2);
  match y with
  | None => m_ret (Scores (Some scores))
  | Some _ =>
    W1 ⇐ get_param "W1";
    n1 ⇐ m_lift (np_linalg_norm_fro W1);
    let W1_frobenius_norm_squared := s_sq n1 in
    W2 ⇐ get_param "W2";
    n2 ⇐ m_lift (np_linalg_norm_fro W2);
    let W2_frobenius_norm_squared := s_sq n2 in
    '(softmax, dout) ⇐ call_softmax_loss (Some scores) y;
    self ⇐ m_get;
    let loss := s_add softmax
                  (s_mul (s_mul (reg self) s_half)
                         (s_add W1_frobenius_norm_squared
                                W2_frobenius_norm_squared)) in
    '(dhidden, dW2, db2) ⇐
       m_call "affine_backward" [AArr dout; ACache cache_output]
              (affine_backward dout cache_output);
    self ⇐ m_get;
    W2 ⇐ get_param "W2";
    gW2 ⇐ m_lift (np_add dW2 (np_scale (reg self) W2));
    let grads : gmap string array := <["W2" := gW2]> ∅ in
    let grads := <["b2" := db2]> grads in
    '(dx, dW1, db1) ⇐
       m_call "affine_relu_backward" [AArr dhidden; ACache cache_hidden]
              (affine_relu_backward dhidden cache_hidden);
    self ⇐ m_get;
    W1 ⇐ get_param "W1";
    gW1 ⇐ m_lift (np_add dW1 (np_scale (reg self) W1));
    let grads := <["W1" := gW1]> grads in
    let grads := <["b1" := db1]> grads in
    m_ret (LossGrads loss grads)
  end.

End WithBackend.
End TwoLayerNet.

(** ** What the rest of the development assumes of the collaborators

    The shape contracts of NumPy and of the layer primitives: a forward
    primitive accepts a batch of [N] inputs whose trailing dimensions multiply
    to the weight's row count and returns [N] rows of the weight's column
    count; a backward primitive run on the cache of a forward call returns
    gradients shaped like that call's arguments. *)

Definition Zprod (ds : list Z) : Z := foldr Z.mul 1 ds.

Class BackendLaws (B : Backend) : Prop := {
  shape_astype : ∀ a d, shape (astype a d) = shape a;
  shape_np_scale : ∀ s a, shape (np_scale s a) = shape a;
  shape_np_add : ∀ a b c,
    np_add a b = Ok c → shape a = shape b → shape c = shape a;
  affine_forward_shape : ∀ x W b N ds D M,
    shape x = N :: ds → shape W = [D; M] → shape b = [M] →
    0 < N → 0 < D → Zprod ds = D →
    ∃ out c, affine_forward x W b = Ok (out, c) ∧ shape out = [N; M];
  affine_relu_forward_shape : ∀ x W b N ds D M,
    shape x = N :: ds → shape W = [D; M] → shape b = [M] →
    0 < N → 0 < D → Zprod ds = D →
    ∃ out c, affine_relu_forward x W b = Ok (out, c) ∧ shape out = [N; M];
  affine_backward_shape : ∀ x W b out c dout dx dW db,
    affine_forward x W b = Ok (out, c) →
    affine_backward dout c = Ok (dx, dW, db) →
    shape dx = shape x ∧ shape dW = shape W ∧ shape db = shape b;
  affine_relu_backward_shape : ∀ x W b out c dout dx dW db,
    affine_relu_forward x W b = Ok (out, c) →
    affine_relu_backward dout c = Ok (dx, dW, db) →
    shape dx = shape x ∧ shape dW = shape W ∧ shape db = shape b
}.

(** What the constructors assume of NumPy's allocators: an array that was
    allocated has the shape that was asked for. *)
Class AllocLaws (B : Backend) : Prop := {
  shape_np_random_normal : ∀ scale sh g a g',
    np_random_normal scale sh g = Ok (a, g') → shape a = sh;
  shape_np_zeros : ∀ sh a, np_zeros sh = Ok a → shape a = sh
}.

(** ** A symbolic backend

    Arrays carry their shape and a term that records how they were computed;
    scalars are such terms.  NumPy and the layer primitives check shapes as
    the real ones do and raise on a mismatch, but compute no numbers, so the
    embedded methods can be run on concrete networks without fixing a
    floating-point semantics. *)

Module Symbolic.

#[warnings="-register-all"]
Inductive term : Type :=
  | TLit (q : Q)
  | TInt (z : Z)
  | TVar (name : string)
  | TOp (op : string) (ts : list term).

Record sarray : Type := SArr { sshape : list Z; sterm : term }.

(** A cache remembers the forward call that made it, and which primitive
    made it: the tuples the two backward primitives unpack differ. *)
Record scache : Type :=
  SCache { c_relu : bool; c_x : sarray; c_W : sarray; c_b : sarray }.

Definition nonneg_dims (sh : list Z) : bool := forallb (λ d, 0 <=? d) sh.

(** NumPy rejects a negative dimension and a negative scale. *)
Definition s_random_normal (scale : term) (sh : list Z) (g : Z)
  : outcome (sarray * Z) :=
  let scale_ok := match scale with TLit q => Qle_bool 0 q | _ => true end in
  if nonneg_dims sh && scale_ok
  then Ok (SArr sh (TOp "normal" [scale; TInt g]), g + 1)
  else Raise ValueError.

Definition s_zeros (sh : list Z) : outcome sarray :=
  if nonneg_dims sh then Ok (SArr sh (TOp "zeros" [])) else Raise ValueError.

Definition s_astype (a : sarray) (d : string) : sarray :=
  SArr (sshape a) (TOp "astype" [sterm a; TVar d]).

(** Addition of arrays of one shape; broadcasting between different shapes
    is left out and raises. *)
Definition s_add_arr (a b : sarray) : outcome sarray :=
  if bool_decide (sshape a = sshape b)
  then Ok (SArr (sshape a) (TOp "add" [sterm a; sterm b]))
  else Raise ValueError.

Definition s_scale (s : term) (a : sarray) : sarray :=
  SArr (sshape a) (TOp "mul" [s; sterm a]).

Definition s_norm_fro (a : sarray) : outcome term :=
  match sshape a with
  | [_; _] => Ok (TOp "norm_fro" [sterm a])
  | _ => Raise ValueError
  end.

(** [x.reshape(N, -1).dot(w) + b]. *)
Definition s_affine (relu : bool) (x W b : sarray) : outcome (sarray * scache) :=
  match sshape x, sshape W, sshape b with
  | N :: ds, [D; M], [M'] =>
      if (0 <? N) && (0 <? D) && (Zprod ds =? D) && (M =? M')
      then Ok (SArr [N; M]
                 (TOp (if relu then "affine_relu" else "affine")
                      [sterm x; sterm W; sterm b]),
               SCache relu x W b)
      else Raise ValueError
  | _, _, _ => Raise ValueError
  end.

Definition s_affine_back (relu : bool) (dout : sarray) (c : scache)
  : outcome (sarray * sarray * sarray) :=
  match sshape (c_x c), sshape (c_W c) with
  | N :: _, [_; M] =>
      if bool_decide (sshape dout = [N; M]) && Bool.eqb relu (c_relu c)
      then
        let actuals := [sterm dout; sterm (c_x c); sterm (c_W c); sterm (c_b c)] in
        let pre := if relu then "affine_relu" else "affine" in
        Ok (SArr (sshape (c_x c)) (TOp (pre +:+ "_dx") actuals),
            SArr (sshape (c_W c)) (TOp (pre +:+ "_dw") actuals),
            SArr (sshape (c_b c)) (TOp (pre +:+ "_db") actuals))
      else Raise ValueError
  | _, _ => Raise ValueError
  end.

(** One label per row, each a class index. *)
Definition s_softmax_loss (scores : sarray) (y : list Z)
  : outcome (term * sarray) :=
  match sshape scores with
  | [N; C] =>
      if negb (N =? Z.of_nat (length y)) then Raise ValueError
      else if negb (forallb (λ k, (0 <=? k) && (k <? C)) y) then Raise IndexError
      else Ok (TOp "softmax_loss" [sterm scores; TOp "labels" (TInt <$> y)],
               SArr [N; C]
                 (TOp "softmax_dx" [sterm scores; TOp "labels" (TInt <$> y)]))
  | _ => Raise ValueError
  end.

#[global] Instance backend : Backend := {|
  scalar := term;
  array := sarray;
  cache := scache;
  labels := list Z;
  np_dtype := string;
  rng := Z;
  shape := sshape;
  np_random_normal := s_random_normal;
  np_zeros := s_zeros;
  astype := s_astype;
  np_add := s_add_arr;
  np_scale := s_scale;
  np_linalg_norm_fro := s_norm_fro;
  np_sum := TOp "sum";
  s_sq := λ x, TOp "pow2" [x];
  s_add := λ x y, TOp "add" [x; y];
  s_mul := λ x y, TOp "mul" [x; y];
  s_half := TLit (1 # 2);
  affine_forward := s_affine false;
  affine_relu_forward := s_affine true;
  softmax_loss := s_softmax_loss;
  affine_backward := s_affine_back false;
  affine_relu_backward := s_affine_back true
|}.

(** An input batch of the given shape. *)
Definition input (name : string) (sh : list Z) : sarray := SArr sh (TVar name).

End Symbolic.

(** ** Specification vocabulary

    The forward and the backward pass as the design describes them, on the
    ordered list of the layers' [(W, b)] pairs, and the predicates the
    statements below are phrased in. *)

Section Specification.
Context `{B : Backend}.

(** The mode a call to [loss] runs in. *)
Definition mode_of (y : option labels) : string :=
  match y with None => "test" | Some _ => "train" end.

(** The pair [(W_i, b_i)] a parameter dictionary holds for layer [i]. *)
Definition layer_param (params : gmap string array) (i : Z)
  : option (array * array) :=
  W ← params !! fstr "W" i; b ← params !! fstr "b" i; Some (W, b).

(** Layers [1 .. L], in order. *)
Definition layers_of (params : gmap string array) (L : Z)
  : option (list (array * array)) :=
  mapM (layer_param params) (py_range 1 (L + 1)).

(** Forward pass: affine then ReLU for every layer but the last, affine alone
    for the last; the caches are collected in layer order. *)
Fixpoint forward_spec (x : array) (ls : list (array * array))
  : outcome (array * list cache) :=
  match ls with
  | [] => Raise TypeError
  | (W, b) :: rest =>
      match rest with
      | [] => '(scores, c) ← affine_forward x W b; Ok (scores, [c])
      | _ :: _ =>
          '(h, c) ← affine_relu_forward x W b;
          '(scores, cs) ← forward_spec h rest;
          Ok (scores, c :: cs)
      end
  end.

(** Backward pass, in reverse layer order: affine-backward on the last cache,
    ReLU-backward composed with affine-backward on the others.  The result is
    the gradient with respect to the input and the [(dW_i, db_i)], in layer
    order. *)
Fixpoint backward_spec (dscores : array) (cs : list cache)
  : outcome (array * list (array * array)) :=
  match cs with
  | [] => Ok (dscores, [])
  | c :: rest =>
      match rest with
      | [] => '(dx, dW, db) ← affine_backward dscores c; Ok (dx, [(dW, db)])
      | _ :: _ =>
          '(dout, gs) ← backward_spec dscores rest;
          '(dx, dW, db) ← affine_relu_backward dout c;
          Ok (dx, (dW, db) :: gs)
      end
  end.

(** The squared Frobenius norms of the weights, in layer order. *)
Definition norms_spec (ls : list (array * array)) (norms : list scalar) : Prop :=
  Forall2 (λ l n, ∃ m, np_linalg_norm_fro l.1 = Ok m ∧ n = s_sq m) ls norms.

(** The names of the parameters of layers [1 .. L]. *)
Definition param_keys (L : Z) : gset string :=
  list_to_set (py_range 1 (L + 1) ≫= λ i, [fstr "W" i; fstr "b" i]).

(** What the gradient dictionary must be, given the layers' parameters [ls]
    and the backward pass's [(dW_i, db_i)] in [gs]: its keys are the
    parameters' names, and under them lie [dW_i + reg * W_i] and [db_i],
    shaped like [W_i] and [b_i]. *)
Definition grads_spec (reg : scalar) (ls gs : list (array * array))
    (grads : gmap string array) : Prop :=
  length gs = length ls ∧
  dom grads = param_keys (Z.of_nat (length ls)) ∧
  ∀ (k : nat) W b dW db,
    ls !! k = Some (W, b) → gs !! k = Some (dW, db) →
    ∃ gW, np_add dW (np_scale reg W) = Ok gW ∧
          grads !! fstr "W" (1 + Z.of_nat k) = Some gW ∧
          grads !! fstr "b" (1 + Z.of_nat k) = Some db ∧
          shape gW = shape W ∧ shape db = shape b.

(** The names of the primitives a returning call to [loss] invokes, in
    order, on a network of [L] layers. *)
Definition forward_calls (L : Z) : list string :=
  replicate (Z.to_nat (L - 1)) "affine_relu_forward" ++ ["affine_forward"].

Definition backward_calls (L : Z) : list string :=
  ["softmax_loss"; "affine_backward"] ++
  replicate (Z.to_nat (L - 1)) "affine_relu_backward".

Definition loss_calls (L : Z) (y : option labels) : list string :=
  forward_calls L ++ match y with None => [] | Some _ => backward_calls L end.

(** A call that is handed a dictionary. *)
Definition takes_dict (c : call) : Prop := ∃ d, ADict d ∈ args c.

(** A call that is handed [dropout_param] or an entry of [bn_params]. *)
Definition takes_param_dict (self : FullyConnectedNet.t) (c : call) : Prop :=
  ∃ d, ADict d ∈ args c ∧
       (FullyConnectedNet.dropout_param self = Some d ∨
        d ∈ FullyConnectedNet.bn_params self).

(** The layer primitives [fc_net.py] calls. *)
Definition layer_primitives : list string :=
  ["affine_forward"; "affine_relu_forward"; "softmax_loss";
   "affine_backward"; "affine_relu_backward"].

(** A call to a layer primitive that is handed no dictionary. *)
Definition not_a_dict_call (c : call) : Prop :=
  fn c ∈ layer_primitives ∧ ¬ takes_dict c.

(** [self] after the two mode assignments that open [FullyConnectedNet.loss]. *)
Definition set_modes (y : option labels) (self : FullyConnectedNet.t)
  : FullyConnectedNet.t :=
  let self1 :=
    match FullyConnectedNet.dropout_param self with
    | Some d =>
        FullyConnectedNet.set_dropout_param
          (Some (<["mode" := PStr (mode_of y)]> d)) self
    | None => self
    end in
  if FullyConnectedNet.use_batchnorm self1
  then FullyConnectedNet.set_bn_params
         ((λ bn_param : dict, <[mode_of y := PStr (mode_of y)]> bn_param)
            <$> FullyConnectedNet.bn_params self1) self1
  else self1.

(** Two network objects with the same parameters and the same
    regularization strength, depth and datatype. *)
Definition same_model (s1 s2 : FullyConnectedNet.t) : Prop :=
  FullyConnectedNet.params s1 = FullyConnectedNet.params s2 ∧
  FullyConnectedNet.reg s1 = FullyConnectedNet.reg s2 ∧
  FullyConnectedNet.num_layers s1 = FullyConnectedNet.num_layers s2 ∧
  FullyConnectedNet.dtype s1 = FullyConnectedNet.dtype s2.

(** The network objects a program can hold: what the constructor returned,
    after any number of calls to [loss]. *)
Inductive reachable : FullyConnectedNet.t → Prop :=
  | reachable_init hidden_dims input_dim num_classes dropout use_batchnorm
      reg weight_scale dtype seed g self g' :
      FullyConnectedNet.__init__ hidden_dims input_dim num_classes dropout
        use_batchnorm reg weight_scale dtype seed g = Ok (self, g') →
      reachable self
  | reachable_loss self X y :
      reachable self →
      reachable (self_of (FullyConnectedNet.loss X y self)).

(** Layer [i] of a parameter dictionary has the shapes [(din, dout)] and
    [(dout,)]. *)
Definition layer_ok (params : gmap string array) (i din dout : Z) : bool :=
  match params !! fstr "W" i, params !! fstr "b" i with
  | Some W, Some b =>
      bool_decide (shape W = [din; dout]) && bool_decide (shape b = [dout])
  | _, _ => false
  end.

(** Layers [i], [i+1], ... have the shapes the consecutive entries of [dims]
    prescribe. *)
Fixpoint layers_ok (params : gmap string array) (i : Z) (dims : list Z) : bool :=
  match dims with
  | din :: rest =>
      match rest with
      | dout :: _ => layer_ok params i din dout && layers_ok params (i + 1) rest
      | [] => true
      end
  | [] => true
  end.

(** A network whose layer widths are [dims = input_dim :: hidden_dims ++
    [num_classes]], all positive. *)
Definition well_shaped (dims : list Z) (self : FullyConnectedNet.t) : bool :=
  (FullyConnectedNet.num_layers self =? Z.of_nat (length dims) - 1) &&
  (1 <=? FullyConnectedNet.num_layers self) &&
  forallb (λ d, 0 <? d) dims &&
  layers_ok (FullyConnectedNet.params self) 1 dims.

(** The same for the fixed two-layer network. *)
Definition well_shaped2 (D H C : Z) (self : TwoLayerNet.t) : bool :=
  (0 <? D) && (0 <? H) && (0 <? C) &&
  layer_ok (TwoLayerNet.params self) 1 D H &&
  layer_ok (TwoLayerNet.params self) 2 H C.

(** What the initialisation loop allocates for the layer widths [dims], told
    without indices: for each pair of consecutive widths one draw of the
    generator for the weights, from the state the previous draw left, and one
    array of zeros for the biases. *)
Fixpoint init_spec (weight_scale : scalar) (dims : list Z) (g : rng)
  : outcome (list (array * array) * rng) :=
  match dims with
  | din :: rest =>
      match rest with
      | dout :: _ =>
          '(W, g) ← np_random_normal weight_scale [din; dout] g;
          b ← np_zeros [dout];
          '(ls, g) ← init_spec weight_scale rest g;
          Ok ((W, b) :: ls, g)
      | [] => Ok ([], g)
      end
  | [] => Ok ([], g)
  end.

(** The cast [astype(dtype)] on the parameters of a layer. *)
Definition cast_layer (dtype : np_dtype) (l : array * array) : array * array :=
  (astype l.1 dtype, astype l.2 dtype).

(** A computation that keeps a property of [self], whatever its outcome. *)
Definition preserves {S A} (P : S → Prop) (m : M S A) : Prop :=
  ∀ s, P s → P (self_of (m s)).

(** Two computations that, started on related objects, have the same
    outcome, make the same calls and end on related objects. *)
Definition agree {S A} (R : S → S → Prop) (m1 m2 : M S A) : Prop :=
  ∀ s1 s2, R s1 s2 →
    outcome_of (m1 s1) = outcome_of (m2 s2) ∧
    calls_of (m1 s1) = calls_of (m2 s2) ∧
    R (self_of (m1 s1)) (self_of (m2 s2)).

(** A computation all of whose calls satisfy [P]. *)
Definition calls_all {S A} (P : call → Prop) (m : M S A) : Prop :=
  ∀ s, Forall P (calls_of (m s)).

End Specification.

(** ** Concrete networks and inputs, on the symbolic backend *)

Module Examples.
Import Symbolic.

(** A batch of five 2x2 inputs and its labels. *)
Definition X : array := input "X" [5; 2; 2].
Definition y : labels := [0; 1; 1; 0; 1].

(** [FullyConnectedNet(hidden_dims, input_dim=4, num_classes=2, dropout=...,
    use_batchnorm=..., reg=0.1, weight_scale=0.01, dtype=float64, seed=7)]. *)
Definition make (hidden_dims : list Z) (dropout : Q) (use_batchnorm : bool)
  : outcome (FullyConnectedNet.t * rng) :=
  FullyConnectedNet.__init__ hidden_dims 4 2 dropout use_batchnorm
    (TLit (1 # 10)) (TLit (1 # 100)) "float64" (Some 7) 0.

(** [TwoLayerNet(input_dim=4, hidden_dim=3, num_classes=2, weight_scale=0.01,
    reg=0.1)]. *)
Definition make2 : outcome (TwoLayerNet.t * rng) :=
  TwoLayerNet.__init__ 4 3 2 (TLit (1 # 100)) (TLit (1 # 10)) 0.

(** What the constructors build from these arguments: the weights are the
    first two draws of the generator, the biases are zero, all cast. *)
Definition weight (draw : Z) (sh : list Z) : array :=
  SArr sh (TOp "astype"
             [TOp "normal" [TLit (1 # 100); TInt draw]; TVar "float64"]).
Definition bias (sh : list Z) : array :=
  SArr sh (TOp "astype" [TOp "zeros" []; TVar "float64"]).

Definition params_4_3_2 : gmap string array :=
  <["b2" := bias [2]]> (<["W2" := weight 1 [3; 2]]>
    (<["b1" := bias [3]]> (<["W1" := weight 0 [4; 3]]> ∅))).

(** [make [3] (1 # 2) true]: dropout and batch normalization enabled. *)
Definition net_full : FullyConnectedNet.t :=
  FullyConnectedNet.Build true true (TLit (1 # 10)) 2 "float64" params_4_3_2
    (Some (<["seed" := PInt 7]> (<["p" := PNum (1 # 2)]>
             ({["mode" := PStr "train"]} : dict))))
    [{["mode" := PStr "train"]}].

(** [make [3] 0 false]: neither enabled. *)
Definition net_plain : FullyConnectedNet.t :=
  FullyConnectedNet.Build false false (TLit (1 # 10)) 2 "float64" params_4_3_2
    (Some ∅) [].

(** [make2]; [TwoLayerNet] does not cast its parameters. *)
Definition net2 : TwoLayerNet.t :=
  TwoLayerNet.Build
    (<["b2" := SArr [2] (TOp "zeros" [])]>
       (<["W2" := SArr [3; 2] (TOp "normal" [TLit (1 # 100); TInt 1])]>
          (<["b1" := SArr [3] (TOp "zeros" [])]>
             (<["W1" := SArr [4; 3] (TOp "normal" [TLit (1 # 100); TInt 0])]>
                ∅))))
    (TLit (1 # 10)).

(** The layers of [params_4_3_2], in order. *)
Definition layers_4_3_2 : list (array * array) :=
  [(weight 0 [4; 3], bias [3]); (weight 1 [3; 2], bias [2])].

(** A [TwoLayerNet] that holds the parameters of [net_full]. *)
Definition two_cast : TwoLayerNet.t :=
  TwoLayerNet.Build params_4_3_2 (TLit (1 # 10)).

(** [net_plain] after [del model.params['b1']]. *)
Definition net_no_b1 : FullyConnectedNet.t :=
  FullyConnectedNet.Build false false (TLit (1 # 10)) 2 "float64"
    (delete "b1" params_4_3_2) (Some ∅) [].

(** Labels for [X] with a class index out of range: there are two classes. *)
Definition y_bad : labels := [0; 1; 2; 0; 1].

End Examples.

(** * Proofs *)

(** ** Runs of composed computations *)

Section Runs.
Context `{B : Backend} {S : Type}.

Lemma bind_ok {A C} (m : M S A) (f : A → M S C) s a :
  outcome_of (m s) = Ok a →
  outcome_of (m_bind m f s) = outcome_of (f a (self_of (m s))) ∧
  self_of (m_bind m f s) = self_of (f a (self_of (m s))) ∧
  calls_of (m_bind m f s) = calls_of (m s) ++ calls_of (f a (self_of (m s))).
Proof. intros H. unfold m_bind. by rewrite H. Qed.

Lemma bind_ok_run {A C} (m : M S A) (f : A → M S C) s a :
  outcome_of (m s) = Ok a →
  m_bind m f s =
    Run (outcome_of (f a (self_of (m s)))) (self_of (f a (self_of (m s))))
        (calls_of (m s) ++ calls_of (f a (self_of (m s)))).
Proof. intros H. unfold m_bind. by rewrite H. Qed.

Lemma bind_raise {A C} (m : M S A) (f : A → M S C) s e :
  outcome_of (m s) = Raise e →
  outcome_of (m_bind m f s) = Raise e ∧
  self_of (m_bind m f s) = self_of (m s) ∧
  calls_of (m_bind m f s) = calls_of (m s).
Proof. intros H. unfold m_bind. by rewrite H. Qed.

Lemma bind_ok_inv {A C} (m : M S A) (f : A → M S C) s v :
  outcome_of (m_bind m f s) = Ok v →
  ∃ a, outcome_of (m s) = Ok a ∧
       outcome_of (f a (self_of (m s))) = Ok v ∧
       self_of (m_bind m f s) = self_of (f a (self_of (m s))) ∧
       calls_of (m_bind m f s) = calls_of (m s) ++ calls_of (f a (self_of (m s))).
Proof.
  destruct (outcome_of (m s)) as [a|e] eqn:Hm.
  - destruct (bind_ok m f s a Hm) as (-> & -> & ->). eauto.
  - destruct (bind_raise m f s e Hm) as (-> & _). discriminate.
Qed.

Lemma m_for_app {A C} (f : C → A → M S C) xs ys acc s :
  m_for f (xs ++ ys) acc s = m_bind (m_for f xs acc) (m_for f ys) s.
Proof.
  revert acc s. induction xs as [|x xs IH]; intros acc s; simpl.
  - unfold m_bind, m_ret; simpl. by destruct (m_for f ys acc s).
  - unfold m_bind. destruct (outcome_of (f acc x s)) eqn:Hx; simpl; [|done].
    rewrite IH. unfold m_bind.
    destruct (outcome_of (m_for f xs a (self_of (f acc x s)))); simpl;
      by rewrite ?app_assoc.
Qed.

(** *** Properties of [self] that a computation keeps *)

Lemma preserves_ret {A} P (a : A) : preserves (S:=S) P (m_ret a).
Proof. by intros s. Qed.

Lemma preserves_get P : preserves (S:=S) P m_get.
Proof. by intros s. Qed.

Lemma preserves_lift {A} P (r : outcome A) : preserves (S:=S) P (m_lift r).
Proof. by intros s. Qed.

Lemma preserves_call {A} P name actuals (r : outcome A) :
  preserves (S:=S) P (m_call name actuals r).
Proof. by intros s. Qed.

Lemma preserves_modify P (f : S → S) :
  (∀ s, P s → P (f s)) → preserves P (m_modify f).
Proof. intros Hf s Hs. by apply Hf. Qed.

Lemma preserves_bind {A C} P (m : M S A) (f : A → M S C) :
  preserves P m → (∀ a, preserves P (f a)) → preserves P (m_bind m f).
Proof.
  intros Hm Hf s Hs. unfold m_bind.
  destruct (outcome_of (m s)) eqn:E; simpl; [apply Hf|]; by apply Hm.
Qed.

Lemma preserves_for {A C} P (f : C → A → M S C) xs acc :
  (∀ c a, preserves P (f c a)) → preserves P (m_for f xs acc).
Proof.
  intros Hf. revert acc. induction xs as [|x xs IH]; intros acc; simpl.
  - apply preserves_ret.
  - apply preserves_bind; auto.
Qed.

Lemma preserves_map {A C} P (f : A → M S C) xs :
  (∀ a, preserves P (f a)) → preserves P (m_map f xs).
Proof.
  intros Hf. induction xs as [|x xs IH]; simpl.
  - apply preserves_ret.
  - apply preserves_bind; [done|]. intros c.
    apply preserves_bind; [done|]. intros cs. apply preserves_ret.
Qed.

(** *** Computations that agree on related objects *)

Lemma agree_ret {A} (R : S → S → Prop) (a : A) : agree R (m_ret a) (m_ret a).
Proof. by intros s1 s2 HR. Qed.

Lemma agree_lift {A} (R : S → S → Prop) (r : outcome A) :
  agree R (m_lift r) (m_lift r).
Proof. by intros s1 s2 HR. Qed.

Lemma agree_call {A} (R : S → S → Prop) name actuals (r : outcome A) :
  agree R (m_call name actuals r) (m_call name actuals r).
Proof. by intros s1 s2 HR. Qed.

Lemma agree_modify (R : S → S → Prop) (f1 f2 : S → S) :
  (∀ s1 s2, R s1 s2 → R (f1 s1) (f2 s2)) → agree R (m_modify f1) (m_modify f2).
Proof. intros Hf s1 s2 HR. simpl. auto. Qed.

Lemma agree_bind {A C} (R : S → S → Prop) (m1 m2 : M S A) (f1 f2 : A → M S C) :
  agree R m1 m2 → (∀ a, agree R (f1 a) (f2 a)) →
  agree R (m_bind m1 f1) (m_bind m2 f2).
Proof.
  intros Hm Hf s1 s2 HR. destruct (Hm s1 s2 HR) as (Ho & Hc & Hs).
  unfold m_bind. rewrite <- Ho, <- Hc.
  destruct (outcome_of (m1 s1)) as [a|e]; simpl; [|done].
  destruct (Hf a _ _ Hs) as (Ho' & Hc' & Hs'). by rewrite Ho', Hc'.
Qed.

Lemma agree_get_bind {C} (R : S → S → Prop) (k1 k2 : S → M S C) :
  (∀ s1 s2, R s1 s2 → agree R (k1 s1) (k2 s2)) →
  agree R (m_bind m_get k1) (m_bind m_get k2).
Proof. intros Hk s1 s2 HR. unfold m_bind, m_get; simpl. by apply Hk. Qed.

Lemma agree_for {A C} (R : S → S → Prop) (f1 f2 : C → A → M S C) xs acc :
  (∀ c a, agree R (f1 c a) (f2 c a)) →
  agree R (m_for f1 xs acc) (m_for f2 xs acc).
Proof.
  intros Hf. revert acc. induction xs as [|x xs IH]; intros acc; simpl.
  - apply agree_ret.
  - apply agree_bind; auto.
Qed.

Lemma agree_map {A C} (R : S → S → Prop) (f1 f2 : A → M S C) xs :
  (∀ a, agree R (f1 a) (f2 a)) → agree R (m_map f1 xs) (m_map f2 xs).
Proof.
  intros Hf. induction xs as [|x xs IH]; simpl.
  - apply agree_ret.
  - apply agree_bind; [done|]. intros c.
    apply agree_bind; [done|]. intros cs. apply agree_ret.
Qed.

(** *** Properties of every call a computation makes *)

Lemma calls_all_ret {A} P (a : A) : calls_all (S:=S) P (m_ret a).
Proof. intros s. constructor. Qed.

Lemma calls_all_get P : calls_all (S:=S) P m_get.
Proof. intros s. constructor. Qed.

Lemma calls_all_modify P (f : S → S) : calls_all P (m_modify f).
Proof. intros s. constructor. Qed.

Lemma calls_all_lift {A} P (r : outcome A) : calls_all (S:=S) P (m_lift r).
Proof. intros s. constructor. Qed.

Lemma calls_all_call {A} (P : call → Prop) name actuals (r : outcome A) :
  P (Call name actuals) → calls_all (S:=S) P (m_call name actuals r).
Proof. intros HP s. simpl. by repeat constructor. Qed.

Lemma calls_all_bind {A C} P (m : M S A) (f : A → M S C) :
  calls_all P m → (∀ a, calls_all P (f a)) → calls_all P (m_bind m f).
Proof.
  intros Hm Hf s. unfold m_bind.
  destruct (outcome_of (m s)) eqn:E; simpl; [|apply Hm].
  apply Forall_app. split; [apply Hm | apply Hf].
Qed.

Lemma calls_all_for {A C} P (f : C → A → M S C) xs acc :
  (∀ c a, calls_all P (f c a)) → calls_all P (m_for f xs acc).
Proof.
  intros Hf. revert acc. induction xs as [|x xs IH]; intros acc; simpl.
  - apply calls_all_ret.
  - apply calls_all_bind; auto.
Qed.

Lemma calls_all_map {A C} P (f : A → M S C) xs :
  (∀ a, calls_all P (f a)) → calls_all P (m_map f xs).
Proof.
  intros Hf. induction xs as [|x xs IH]; simpl.
  - apply calls_all_ret.
  - apply calls_all_bind; [done|]. intros c.
    apply calls_all_bind; [done|]. intros cs. apply calls_all_ret.
Qed.

End Runs.

(** Case analysis on the scrutinee at the head of a method body. *)
#[local] Ltac split_scrutinee :=
  match goal with
  | |- ?F (match ?x with (_, _) => _ end) => destruct x
  | |- ?F (if ?b then _ else _) => destruct b
  | |- ?F (match ?x with Some _ => _ | None => _ end) => destruct x
  | |- ?F (match ?x with (_, _) => _ end) _ => destruct x
  | |- ?F (if ?b then _ else _) _ => destruct b
  | |- ?F (match ?x with Some _ => _ | None => _ end) _ => destruct x
  end.

(** Discharges [preserves] goals on method bodies. *)
#[local] Ltac preserves_tac :=
  repeat first
    [ apply preserves_ret | apply preserves_get | apply preserves_lift
    | apply preserves_call
    | apply preserves_for; intros
    | apply preserves_map; intros
    | apply preserves_bind; [|intros]
    | split_scrutinee ].

(** Discharges [agree same_model] goals: a read of [self] is followed by
    rewriting with the four equalities that relate the two objects. *)
#[local] Ltac agree_tac :=
  repeat first
    [ apply agree_ret | apply agree_lift | apply agree_call
    | split_scrutinee
    | apply agree_for; intros
    | apply agree_map; intros
    | (apply agree_get_bind;
       let s1 := fresh "s" in let s2 := fresh "s" in
       let Hp := fresh "Hp" in let Hr := fresh "Hr" in
       let Hl := fresh "Hl" in let Hd := fresh "Hd" in
       intros s1 s2 (Hp & Hr & Hl & Hd); rewrite ?Hp, ?Hr, ?Hl, ?Hd)
    | apply agree_bind; [|intros] ].

#[local] Ltac calls_all_tac :=
  repeat first
    [ apply calls_all_ret | apply calls_all_get | apply calls_all_lift
    | apply calls_all_modify
    | apply calls_all_for; intros
    | apply calls_all_map; intros
    | apply calls_all_bind; [|intros]
    | split_scrutinee ].

(** ** FullyConnectedNet.loss: what it does to [self] *)

Section LossState.
Context `{B : Backend}.
Import FullyConnectedNet.

Lemma get_param_preserves P key : preserves P (get_param key).
Proof. unfold get_param. preserves_tac. Qed.

Lemma forward_layer_preserves P st index : preserves P (forward_layer st index).
Proof.
  unfold forward_layer. destruct st as [[output scores] cache_list].
  preserves_tac.
Qed.

Lemma regularization_norm_preserves P index :
  preserves P (regularization_norm index).
Proof. unfold regularization_norm. preserves_tac. Qed.

Lemma backward_layer_preserves P cache_list st index :
  preserves P (backward_layer cache_list st index).
Proof.
  unfold backward_layer. destruct st as [dout grads].
  preserves_tac.
Qed.

Lemma call_softmax_loss_preserves P scores y :
  preserves (S:=t) P (call_softmax_loss scores y).
Proof. unfold call_softmax_loss. preserves_tac. Qed.

Lemma loss_passes_preserves P X y mode : preserves P (loss_passes X y mode).
Proof.
  unfold loss_passes. preserves_tac;
    first [ apply forward_layer_preserves | apply regularization_norm_preserves
          | apply backward_layer_preserves | apply call_softmax_loss_preserves ].
Qed.

(** [loss] is the passes run on [self] with the modes set. *)
Lemma loss_unfold X y self :
  outcome_of (loss X y self) =
    outcome_of (loss_passes (astype X (dtype self)) y (mode_of y) (set_modes y self)) ∧
  self_of (loss X y self) =
    self_of (loss_passes (astype X (dtype self)) y (mode_of y) (set_modes y self)) ∧
  calls_of (loss X y self) =
    calls_of (loss_passes (astype X (dtype self)) y (mode_of y) (set_modes y self)).
Proof. done. Qed.

(** After the two mode assignments, [loss] never assigns to [self]. *)
Lemma loss_self X y self : self_of (loss X y self) = set_modes y self.
Proof.
  destruct (loss_unfold X y self) as (_ & -> & _).
  by apply (loss_passes_preserves (λ s, s = set_modes y self)).
Qed.

Lemma params_set_modes y self : params (set_modes y self) = params self.
Proof. unfold set_modes. by repeat case_match. Qed.

Lemma same_model_set_modes y1 y2 s1 s2 :
  same_model s1 s2 → same_model (set_modes y1 s1) (set_modes y2 s2).
Proof. unfold same_model, set_modes. by repeat case_match. Qed.

Lemma same_model_refl s : same_model s s.
Proof. by unfold same_model. Qed.

(** The passes read nothing of [self] but the parameters, the depth and the
    regularization strength. *)
Lemma forward_layer_agree st index :
  agree same_model (forward_layer st index) (forward_layer st index).
Proof.
  unfold forward_layer, get_param. destruct st as [[output scores] cache_list].
  agree_tac.
Qed.

Lemma regularization_norm_agree index :
  agree same_model (regularization_norm index) (regularization_norm index).
Proof. unfold regularization_norm, get_param. agree_tac. Qed.

Lemma backward_layer_agree cache_list st index :
  agree same_model (backward_layer cache_list st index)
                   (backward_layer cache_list st index).
Proof.
  unfold backward_layer, get_param. destruct st as [dout grads]. agree_tac.
Qed.

Lemma loss_passes_agree X y mode :
  agree same_model (loss_passes X y mode) (loss_passes X y mode).
Proof.
  unfold loss_passes, call_softmax_loss. agree_tac;
    first [ apply forward_layer_agree | apply regularization_norm_agree
          | apply backward_layer_agree ].
Qed.

Lemma loss_agree X y : agree same_model (loss X y) (loss X y).
Proof.
  intros s1 s2 HR.
  destruct (loss_unfold X y s1) as (-> & -> & ->).
  destruct (loss_unfold X y s2) as (-> & -> & ->).
  destruct HR as (Hp & Hr & Hl & Hd). rewrite Hd.
  apply loss_passes_agree, same_model_set_modes. by unfold same_model.
Qed.

End LossState.

(** ** The forward loop *)

Section Forward.
Context `{B : Backend}.
Import FullyConnectedNet.

(** One iteration, when the dictionary holds the layer's parameters. *)
Lemma forward_layer_run output scores cache_list index self W b :
  params self !! fstr "W" index = Some W →
  params self !! fstr "b" index = Some b →
  forward_layer (output, scores, cache_list) index self =
    if negb (index =? num_layers self) then
      Run (match affine_relu_forward output W b with
           | Ok (o, c) => Ok (o, scores, cache_list ++ [c])
           | Raise e => Raise e
           end) self
          [Call "affine_relu_forward" [AArr output; AArr W; AArr b]]
    else
      Run (match affine_forward output W b with
           | Ok (o, c) => Ok (output, Some o, cache_list ++ [c])
           | Raise e => Raise e
           end) self
          [Call "affine_forward" [AArr output; AArr W; AArr b]].
Proof.
  intros HW Hb. unfold forward_layer, get_param, m_bind, m_get, m_lift, m_call.
  cbn. destruct (negb _); cbn; unfold py_getitem; rewrite HW; cbn; rewrite Hb; cbn.
  - by destruct (affine_relu_forward output W b) as [[o c]|e].
  - by destruct (affine_forward output W b) as [[o c]|e].
Qed.

(** One iteration that returns found the layer's parameters. *)
Lemma forward_layer_ok_params st index self v :
  outcome_of (forward_layer st index self) = Ok v →
  ∃ W b, params self !! fstr "W" index = Some W ∧
         params self !! fstr "b" index = Some b.
Proof.
  destruct st as [[output scores] cache_list].
  unfold forward_layer, get_param, m_bind, m_get, m_lift, m_call, py_getitem.
  cbn. destruct (negb _); cbn;
    destruct (params self !! fstr "W" index); cbn; try done;
    destruct (params self !! fstr "b" index); cbn; try done; eauto.
Qed.

Lemma forward_layer_self st index self :
  self_of (forward_layer st index self) = self.
Proof. by apply (forward_layer_preserves (λ s, s = self)). Qed.

Lemma layer_param_Some (ps : gmap string array) i W b :
  ps !! fstr "W" i = Some W → ps !! fstr "b" i = Some b →
  layer_param ps i = Some (W, b).
Proof. intros HW Hb. unfold layer_param. rewrite HW. cbn. by rewrite Hb. Qed.

Lemma layer_param_inv (ps : gmap string array) i W b :
  layer_param ps i = Some (W, b) →
  ps !! fstr "W" i = Some W ∧ ps !! fstr "b" i = Some b.
Proof.
  unfold layer_param. destruct (ps !! fstr "W" i); cbn; [|done].
  destruct (ps !! fstr "b" i); cbn; [|done]. by intros [= -> ->].
Qed.

(** The loop over layers [i .. num_layers], when it returns: the layers'
    parameters were found, the loop computed the forward pass of the
    specification from its current [output], it set [scores], it appended
    the caches in layer order, and it called one primitive per layer. *)
Lemma forward_loop_ok (n : nat) i output scores cache_list self r :
  i + Z.of_nat n = num_layers self + 1 → (1 ≤ n)%nat →
  outcome_of (m_for forward_layer (seqZ i (Z.of_nat n))
                (output, scores, cache_list) self) = Ok r →
  ∃ ls sc cs,
    mapM (layer_param (params self)) (seqZ i (Z.of_nat n)) = Some ls ∧
    forward_spec output ls = Ok (sc, cs) ∧
    r.1.2 = Some sc ∧ r.2 = cache_list ++ cs ∧
    fn <$> calls_of (m_for forward_layer (seqZ i (Z.of_nat n))
                       (output, scores, cache_list) self) =
      replicate (n - 1) "affine_relu_forward" ++ ["affine_forward"].
Proof.
  revert i output scores cache_list.
  induction n as [|n IH]; intros i output scores cache_list Hi Hn Hr; [lia|].
  rewrite seqZ_cons in Hr |- * by lia.
  replace (Z.pred (Z.of_nat (S n))) with (Z.of_nat n) in * by lia.
  cbn [m_for] in Hr |- *.
  apply bind_ok_inv in Hr as (acc & Hacc & Hrest & _ & ->).
  rewrite forward_layer_self in *.
  destruct (forward_layer_ok_params _ _ _ _ Hacc) as (W & b & HW & Hb).
  rewrite (forward_layer_run _ _ _ _ _ W b HW Hb) in *.
  cbn [mapM]. rewrite (layer_param_Some _ _ _ _ HW Hb). cbn.
  destruct n as [|n].
  - (* the last layer *)
    replace (i =? num_layers self) with true in * by lia. cbn in *.
    destruct (affine_forward output W b) as [[o c]|e] eqn:Haff; [|done].
    injection Hacc as <-. rewrite seqZ_nil in * by lia. cbn in *.
    injection Hrest as <-. exists [(W, b)], o, [c]. cbn. by rewrite Haff.
  - (* a hidden layer *)
    replace (i =? num_layers self) with false in * by lia. cbn in *.
    destruct (affine_relu_forward output W b) as [[o c]|e] eqn:Haff; [|done].
    injection Hacc as <-.
    destruct (IH (Z.succ i) o scores (cache_list ++ [c])) as
      (ls & sc & cs & Hls & Hspec & Hsc & Hcl & Hcalls); [lia|lia|done|].
    rewrite Hls. cbn. exists ((W, b) :: ls), sc, (c :: cs).
    split; [done|]. split.
    { cbn. rewrite Haff. cbn. rewrite Hspec. cbn.
      destruct ls as [|l ls]; [|done].
      (* the rest is not empty *)
      apply length_mapM in Hls. rewrite length_seqZ in Hls. simpl in Hls. lia. }
    split; [done|]. split; [by rewrite Hcl, <- app_assoc|].
    rewrite Hcalls. f_equal. simpl. by rewrite Nat.sub_0_r.
Qed.

End Forward.

(** ** The forward pass returns on well-shaped networks *)

Section ForwardTotal.
Context `{B : Backend} `{!BackendLaws B}.
Import FullyConnectedNet.

Lemma layer_ok_inv (ps : gmap string array) i din dout :
  layer_ok ps i din dout = true →
  ∃ W b, ps !! fstr "W" i = Some W ∧ ps !! fstr "b" i = Some b ∧
         shape W = [din; dout] ∧ shape b = [dout].
Proof.
  unfold layer_ok. destruct (ps !! fstr "W" i) as [W|]; [|done].
  destruct (ps !! fstr "b" i) as [b|]; [|done].
  intros [HW Hb]%andb_prop. apply bool_decide_eq_true in HW, Hb. eauto 10.
Qed.

Lemma forward_loop_total (n : nat) dims i output scores cache_list self N ds D :
  i + Z.of_nat n = num_layers self + 1 → (1 ≤ n)%nat →
  length dims = S n →
  forallb (λ d, 0 <? d) dims = true →
  layers_ok (params self) i dims = true →
  shape output = N :: ds → 0 < N → dims !! 0%nat = Some D → Zprod ds = D →
  ∃ out sc cl C,
    outcome_of (m_for forward_layer (seqZ i (Z.of_nat n))
                  (output, scores, cache_list) self) = Ok (out, Some sc, cl) ∧
    last dims = Some C ∧ shape sc = [N; C].
Proof.
  revert dims i output scores cache_list ds D.
  induction n as [|n IH];
    intros dims i output scores cache_list ds D Hi Hn Hlen Hpos Hok Hsh HN HD Hds;
    [lia|].
  destruct dims as [|din [|dout rest]]; try done.
  injection HD as ->. cbn [layers_ok] in Hok.
  apply andb_prop in Hok as [Hl Hok].
  destruct (layer_ok_inv _ _ _ _ Hl) as (W & b & HW & Hb & HsW & Hsb).
  cbn [forallb] in Hpos. apply andb_prop in Hpos as [HD Hpos].
  apply Z.ltb_lt in HD.
  rewrite seqZ_cons by lia.
  replace (Z.pred (Z.of_nat (S n))) with (Z.of_nat n) by lia.
  cbn [m_for].
  destruct n as [|n].
  - (* the last layer *)
    destruct rest; [|done].
    destruct (affine_forward_shape output W b N ds D dout)
      as (o & c & Ho & Hso); try done.
    eexists output, o, _, dout.
    unfold m_bind. rewrite (forward_layer_run _ _ _ _ _ W b HW Hb).
    replace (i =? num_layers self) with true by lia. cbn. rewrite Ho. cbn.
    rewrite seqZ_nil by lia. cbn. done.
  - (* a hidden layer *)
    destruct (affine_relu_forward_shape output W b N ds D dout)
      as (o & c & Ho & Hso); try done.
    destruct (IH (dout :: rest) (Z.succ i) o scores (cache_list ++ [c])
                 [dout] dout) as (out & sc & cl & C & Hrun & Hlast & Hsc);
      [lia | lia | simpl in Hlen |- *; lia | done
      | by replace (Z.succ i) with (i + 1) by lia
      | done | done | done | simpl; lia | ].
    exists out, sc, cl, C.
    unfold m_bind. rewrite (forward_layer_run _ _ _ _ _ W b HW Hb).
    replace (i =? num_layers self) with false by lia. cbn. rewrite Ho. cbn.
    rewrite Hrun. split; [done|]. split; [|done].
    destruct rest; [done|]. done.
Qed.

End ForwardTotal.

(** ** The backward loop and the regularization norms *)

Section Backward.
Context `{B : Backend}.
Import FullyConnectedNet.

Lemma fstr_inj prefix i j : fstr prefix i = fstr prefix j → i = j.
Proof.
  unfold fstr. intros H. apply (inj (String.app prefix)) in H.
  by apply (inj pretty) in H.
Qed.

Lemma fstr_W_b i j : fstr "W" i ≠ fstr "b" j.
Proof. unfold fstr. cbn. by intros [=]. Qed.

Lemma py_index_app_middle {A} (pre post : list A) (c : A) (i : Z) :
  Z.of_nat (length pre) = i → py_index (pre ++ c :: post) i = Ok c.
Proof.
  intros Hi. unfold py_index. rewrite length_app. cbn [length]. cbv zeta.
  assert ((i <? 0) = false) as Hlt by (apply Z.ltb_ge; lia).
  assert ((Z.of_nat (length pre + S (length post)) <=? i) = false) as Hle
    by (apply Z.leb_gt; lia).
  rewrite Hlt. cbv iota. rewrite Hlt, Hle. cbn [orb].
  replace (Z.to_nat i) with (length pre + 0)%nat by lia.
  rewrite lookup_app_r by lia.
  replace (length pre + 0 - length pre)%nat with 0%nat by lia. done.
Qed.

(** The backward primitive of a layer and its name. *)
Lemma backward_layer_ok_inv cache_list dout grads index self r :
  outcome_of (backward_layer cache_list (dout, grads) index self) = Ok r →
  ∃ c W dx dW db gW,
    py_index cache_list (index - 1) = Ok c ∧
    params self !! fstr "W" index = Some W ∧
    (if index =? num_layers self then affine_backward dout c
     else affine_relu_backward dout c) = Ok (dx, dW, db) ∧
    np_add dW (np_scale (reg self) W) = Ok gW ∧
    r = (dx, <[fstr "b" index := db]> (<[fstr "W" index := gW]> grads)) ∧
    fn <$> calls_of (backward_layer cache_list (dout, grads) index self) =
      [if index =? num_layers self then "affine_backward"
       else "affine_relu_backward"].
Proof.
  unfold backward_layer, get_param, m_bind, m_get, m_lift, m_call, py_getitem.
  cbn. destruct (py_index cache_list (index - 1)) as [c|]; cbn; [|done].
  destruct (index =? num_layers self); cbn.
  - destruct (affine_backward dout c) as [[[dx dW] db]|] eqn:Hback; cbn; [|done].
    destruct (params self !! fstr "W" index) as [W|]; cbn; [|done].
    destruct (np_add dW (np_scale (reg self) W)) as [gW|] eqn:Hadd; cbn; [|done].
    intros [= <-]. by exists c, W, dx, dW, db, gW.
  - destruct (affine_relu_backward dout c) as [[[dx dW] db]|] eqn:Hback; cbn;
      [|done].
    destruct (params self !! fstr "W" index) as [W|]; cbn; [|done].
    destruct (np_add dW (np_scale (reg self) W)) as [gW|] eqn:Hadd; cbn; [|done].
    intros [= <-]. by exists c, W, dx, dW, db, gW.
Qed.

Lemma backward_layer_self cache_list st index self :
  self_of (backward_layer cache_list st index self) = self.
Proof. by apply (backward_layer_preserves (λ s, s = self)). Qed.

Lemma m_for_self {A C} (f : C → A → M t C) xs acc self :
  (∀ c a s, self_of (f c a s) = s) → self_of (m_for f xs acc self) = self.
Proof.
  intros Hf. apply (preserves_for (λ s, s = self)); [|done].
  intros c a s ->. apply Hf.
Qed.

End Backward.

Section BackwardLoop.
Context `{B : Backend}.
Import FullyConnectedNet.

Lemma m_for_singleton {S A C} (f : C → A → M S C) x acc s :
  outcome_of (m_for f [x] acc s) = outcome_of (f acc x s) ∧
  self_of (m_for f [x] acc s) = self_of (f acc x s) ∧
  calls_of (m_for f [x] acc s) = calls_of (f acc x s).
Proof.
  cbn. unfold m_bind. destruct (outcome_of (f acc x s)); cbn; [|done].
  by rewrite app_nil_r.
Qed.

(** The loop over layers [num_layers] down to [i], on the caches [cs] of
    these layers, when it returns: it computed the backward pass of the
    specification, stored one regularized weight gradient and one bias
    gradient per layer, left every other key alone, and called one backward
    primitive per layer. *)
Lemma backward_loop_ok (n : nat) i pre cs d0 g0 self r :
  i + Z.of_nat n = num_layers self + 1 → 1 ≤ i →
  Z.of_nat (length pre) = i - 1 → length cs = n →
  outcome_of (m_for (backward_layer (pre ++ cs))
                (reverse (seqZ i (Z.of_nat n))) (d0, g0) self) = Ok r →
  ∃ gs,
    backward_spec d0 cs = Ok (r.1, gs) ∧ length gs = n ∧
    (∀ key, (∀ j, i ≤ j ≤ num_layers self →
                  key ≠ fstr "W" j ∧ key ≠ fstr "b" j) →
            r.2 !! key = g0 !! key) ∧
    (∀ (k : nat) dW db, gs !! k = Some (dW, db) →
       ∃ W gW, params self !! fstr "W" (i + Z.of_nat k) = Some W ∧
               np_add dW (np_scale (reg self) W) = Ok gW ∧
               r.2 !! fstr "W" (i + Z.of_nat k) = Some gW ∧
               r.2 !! fstr "b" (i + Z.of_nat k) = Some db) ∧
    fn <$> calls_of (m_for (backward_layer (pre ++ cs))
                       (reverse (seqZ i (Z.of_nat n))) (d0, g0) self) =
      match n with
      | O => []
      | S m => "affine_backward" :: replicate m "affine_relu_backward"
      end.
Proof.
  revert i pre cs r.
  induction n as [|n IH]; intros i pre cs r Hi Hi1 Hpre Hcs Hr.
  { destruct cs; [|done]. rewrite seqZ_nil in Hr |- * by lia. cbn in Hr |- *.
    injection Hr as <-. exists []. by split_and!. }
  destruct cs as [|c rest]; [done|]. injection Hcs as Hcs.
  rewrite seqZ_cons, reverse_cons in Hr |- * by lia.
  replace (Z.pred (Z.of_nat (S n))) with (Z.of_nat n) in * by lia.
  rewrite m_for_app in Hr |- *.
  apply bind_ok_inv in Hr as ([d1 g1] & Hloop & Hstep & _ & ->).
  rewrite m_for_self in * by apply backward_layer_self.
  destruct (m_for_singleton (backward_layer (pre ++ c :: rest)) i (d1, g1) self)
    as (Ho & _ & ->).
  rewrite Ho in Hstep. clear Ho.
  replace (pre ++ c :: rest) with ((pre ++ [c]) ++ rest) in Hloop |- *
    by by rewrite <- app_assoc.
  destruct (IH (Z.succ i) (pre ++ [c]) rest (d1, g1))
    as (gs1 & Hspec & Hlen & Hframe & Hlook & Hcalls);
    [lia | lia | rewrite length_app; simpl; lia | done | done |].
  rewrite <- app_assoc in *. cbn [app] in *.
  apply backward_layer_ok_inv in Hstep
    as (c' & W & dx & dW & db & gW & Hc & HW & Hprim & Hadd & -> & Hcall).
  rewrite py_index_app_middle in Hc by lia. injection Hc as <-.
  rewrite fmap_app, Hcalls, Hcall. cbn [fst snd] in *.
  exists ((dW, db) :: gs1). split_and!.
  - (* the specification's backward pass *)
    destruct rest as [|c2 rest].
    + destruct n; [|done]. cbn in Hspec. injection Hspec as -> <-.
      replace (i =? num_layers self) with true in Hprim by lia.
      cbn. by rewrite Hprim.
    + destruct n; [done|]. cbn [backward_spec]. cbn [backward_spec] in Hspec.
      rewrite Hspec. cbn.
      replace (i =? num_layers self) with false in Hprim by lia.
      by rewrite Hprim.
  - simpl. by rewrite Hlen.
  - intros key Hkey.
    destruct (Hkey i) as [HkW Hkb]; [lia|].
    rewrite !lookup_insert_ne by done. apply Hframe.
    intros j Hj. apply Hkey. lia.
  - intros [|k] dW' db' Hgs.
    + injection Hgs as <- <-. replace (i + Z.of_nat 0) with i by lia.
      exists W, gW. split_and!; try done.
      * rewrite lookup_insert_ne by (symmetry; apply fstr_W_b).
        apply lookup_insert_eq.
      * apply lookup_insert_eq.
    + destruct (Hlook k dW' db' Hgs) as (W' & gW' & HW' & Hadd' & HlW & Hlb).
      replace (i + Z.of_nat (S k)) with (Z.succ i + Z.of_nat k) by lia.
      exists W', gW'. split_and!; try done.
      * rewrite !lookup_insert_ne; [done| |].
        -- intros ?%fstr_inj. lia.
        -- symmetry. apply fstr_W_b.
      * rewrite !lookup_insert_ne; [done| |].
        -- apply fstr_W_b.
        -- intros ?%fstr_inj. lia.
  - destruct n as [|n].
    + by replace (i =? num_layers self) with true by lia.
    + replace (i =? num_layers self) with false by lia.
      cbn [app]. by rewrite <- replicate_S_end.
Qed.

End BackwardLoop.

Section Training.
Context `{B : Backend}.
Import FullyConnectedNet.

Lemma regularization_norm_ok index self n :
  outcome_of (regularization_norm index self) = Ok n →
  ∃ W m, params self !! fstr "W" index = Some W ∧
         np_linalg_norm_fro W = Ok m ∧ n = s_sq m.
Proof.
  unfold regularization_norm, get_param, m_bind, m_get, m_lift, py_getitem.
  cbn. destruct (params self !! fstr "W" index) as [W|]; cbn; [|done].
  destruct (np_linalg_norm_fro W) as [m|] eqn:Hm; cbn; [|done].
  intros [= <-]. eauto.
Qed.

Lemma regularization_norm_calls index self :
  calls_of (regularization_norm index self) = [].
Proof.
  unfold regularization_norm, get_param, m_bind, m_get, m_lift, py_getitem.
  cbn. destruct (params self !! fstr "W" index) as [W|]; cbn; [|done].
  by destruct (np_linalg_norm_fro W).
Qed.

Lemma regularization_norm_self index self :
  self_of (regularization_norm index self) = self.
Proof. by apply (regularization_norm_preserves (λ s, s = self)). Qed.

Lemma norms_ok l self norms :
  outcome_of (m_map regularization_norm l self) = Ok norms →
  Forall2 (λ i n, ∃ W m, params self !! fstr "W" i = Some W ∧
                         np_linalg_norm_fro W = Ok m ∧ n = s_sq m) l norms.
Proof.
  revert norms. induction l as [|i l IH]; intros norms Hr; cbn in Hr.
  - injection Hr as <-. constructor.
  - apply bind_ok_inv in Hr as (n & Hn & Hr & _).
    rewrite regularization_norm_self in Hr.
    apply bind_ok_inv in Hr as (ns & Hns & Hr & _).
    cbn in Hr. injection Hr as <-.
    constructor; [by apply regularization_norm_ok | by apply IH].
Qed.

Lemma norms_calls l self : calls_of (m_map regularization_norm l self) = [].
Proof.
  induction l as [|i l IH]; [done|]. cbn. unfold m_bind at 1.
  destruct (outcome_of (regularization_norm i self)) eqn:Hn; cbn;
    rewrite regularization_norm_calls; [|done].
  rewrite regularization_norm_self. cbn. unfold m_bind.
  destruct (outcome_of (m_map regularization_norm l self)); cbn;
    by rewrite IH.
Qed.

Lemma norms_spec_of ps l ls norms :
  mapM (layer_param ps) l = Some ls →
  Forall2 (λ i n, ∃ W m, ps !! fstr "W" i = Some W ∧
                         np_linalg_norm_fro W = Ok m ∧ n = s_sq m) l norms →
  norms_spec ls norms.
Proof.
  intros Hls%mapM_Some_1. revert norms.
  induction Hls as [|i [W b] l ls Hi _ IH]; intros norms Hn.
  - inversion Hn. constructor.
  - inversion Hn as [|? n ? ns (W' & m & HW' & Hm & ->) Hns]; subst.
    apply layer_param_inv in Hi as [HW _].
    constructor; [|by apply IH]. exists m. cbn. split; [congruence|done].
Qed.

Lemma forward_spec_last x W b :
  forward_spec x [(W, b)] =
    '(scores, c) ← affine_forward x W b; Ok (scores, [c]).
Proof. done. Qed.

Lemma forward_spec_hidden x W b l ls :
  forward_spec x ((W, b) :: l :: ls) =
    '(h, c) ← affine_relu_forward x W b;
    '(scores, cs) ← forward_spec h (l :: ls);
    Ok (scores, c :: cs).
Proof. done. Qed.

Lemma forward_spec_length x ls sc cs :
  forward_spec x ls = Ok (sc, cs) → length cs = length ls.
Proof.
  revert x sc cs. induction ls as [|[W b] ls IH]; intros x sc cs H; [done|].
  destruct ls as [|l ls].
  - rewrite forward_spec_last in H.
    destruct (affine_forward x W b) as [[o c]|]; [|done]. cbn in H.
    by injection H as <- <-.
  - rewrite forward_spec_hidden in H.
    destruct (affine_relu_forward x W b) as [[o c]|]; [|done].
    cbn [mbind outcome_bind] in H.
    destruct (forward_spec o (l :: ls)) as [[sc' cs']|] eqn:Hrec; [|done].
    cbn in H. injection H as <- <-. cbn [length]. f_equal. by eapply IH.
Qed.

(** A call with labels that returns: what the passes computed. *)
Lemma loss_passes_train_ok X y self r :
  outcome_of (loss_passes X (Some y) "train" self) = Ok r →
  ∃ n ls scores cs softmax dscores norms dx gs grads,
    num_layers self = Z.of_nat (S n) ∧
    layers_of (params self) (num_layers self) = Some ls ∧
    forward_spec X ls = Ok (scores, cs) ∧
    softmax_loss scores y = Ok (softmax, dscores) ∧
    norms_spec ls norms ∧
    backward_spec dscores cs = Ok (dx, gs) ∧ length gs = S n ∧
    r = LossGrads (s_add softmax
                     (s_mul (s_mul s_half (reg self)) (np_sum norms))) grads ∧
    (∀ key, (∀ j, 1 ≤ j ≤ num_layers self →
                  key ≠ fstr "W" j ∧ key ≠ fstr "b" j) → grads !! key = None) ∧
    (∀ (k : nat) dW db, gs !! k = Some (dW, db) →
       ∃ W gW, params self !! fstr "W" (1 + Z.of_nat k) = Some W ∧
               np_add dW (np_scale (reg self) W) = Ok gW ∧
               grads !! fstr "W" (1 + Z.of_nat k) = Some gW ∧
               grads !! fstr "b" (1 + Z.of_nat k) = Some db) ∧
    fn <$> calls_of (loss_passes X (Some y) "train" self) =
      loss_calls (num_layers self) (Some y).
Proof.
  unfold loss_passes, py_range. intros Hr.
  apply bind_ok_inv in Hr as (s0 & [= <-] & Hr & _ & ->). cbn [m_get self_of calls_of app] in *.
  apply bind_ok_inv in Hr as ([[out sc] cl] & Hfwd & Hr & _ & ->).
  rewrite m_for_self in * by apply forward_layer_self.
  cbn [String.eqb Ascii.eqb Bool.eqb] in *.
  apply bind_ok_inv in Hr as ([softmax dout] & Hsm & Hr & _ & ->).
  destruct sc as [scores|]; [|done]. cbn in Hsm.
  cbn [call_softmax_loss m_call self_of calls_of] in *.
  (* at least one layer ran *)
  destruct (decide (num_layers self ≤ 0)) as [Hle|Hgt].
  { rewrite seqZ_nil in Hfwd by lia. done. }
  set (n := Z.to_nat (num_layers self - 1)).
  assert (num_layers self = Z.of_nat (S n)) as HL by lia.
  replace (num_layers self + 1 - 1) with (Z.of_nat (S n)) in * by lia.
  destruct (forward_loop_ok (S n) 1 X None [] self _ ltac:(lia) ltac:(lia) Hfwd)
    as (ls & sc & cs & Hls & Hspec & [= <-] & Hcl & Hfcalls).
  cbn [snd app] in Hcl. subst cl.
  assert (length cs = S n) as Hcs.
  { apply forward_spec_length in Hspec as ->.
    apply length_mapM in Hls as <-. rewrite length_seqZ. lia. }
  apply bind_ok_inv in Hr as (s0 & [= <-] & Hr & _ & ->).
  cbn [m_get self_of calls_of app] in *.
  replace (num_layers self + 1 - 1) with (Z.of_nat (S n)) in * by lia.
  apply bind_ok_inv in Hr as (norms & Hnorms & Hr & _ & ->).
  rewrite (norms_calls (seqZ 1 (Z.of_nat (S n))) self).
  assert (self_of (m_map regularization_norm (seqZ 1 (Z.of_nat (S n))) self)
          = self) as Hself.
  { apply (preserves_map (λ s, s = self)); [|done].
    intros i s ->. apply regularization_norm_self. }
  rewrite Hself in *. clear Hself.
  apply bind_ok_inv in Hr as (s0 & [= <-] & Hr & _ & ->).
  cbn [m_get self_of calls_of app] in *.
  apply bind_ok_inv in Hr as (s0 & [= <-] & Hr & _ & ->).
  cbn [m_get self_of calls_of app] in *.
  replace (num_layers self + 1 - 1) with (Z.of_nat (S n)) in * by lia.
  apply bind_ok_inv in Hr as ([dx grads] & Hback & Hr & _ & ->).
  cbn in Hr. injection Hr as <-.
  destruct (backward_loop_ok (S n) 1 [] cs dout ∅ self (dx, grads))
    as (gs & Hbspec & Hgs & Hframe & Hlook & Hbcalls);
    [lia | lia | done | done | done |].
  cbn [app] in *.
  exists n, ls, scores, cs, softmax, dout, norms, dx, gs, grads.
  split_and!; try done.
  - unfold layers_of, py_range.
    by replace (num_layers self + 1 - 1) with (Z.of_nat (S n)) by lia.
  - eapply norms_spec_of; [done|]. by apply norms_ok.
  - rewrite fmap_app, fmap_cons, fmap_app, Hfcalls, Hbcalls.
    cbn [m_ret calls_of fmap list_fmap app fn].
    rewrite app_nil_r. unfold loss_calls, forward_calls, backward_calls.
    subst n. cbn. by rewrite Nat.sub_0_r.
Qed.
End Training.

(** ** Shapes of the gradients *)

Section GradShapes.
Context `{B : Backend} `{!BackendLaws B}.

Lemma backward_spec_last d c :
  backward_spec d [c] = '(dx, dW, db) ← affine_backward d c; Ok (dx, [(dW, db)]).
Proof. done. Qed.

Lemma backward_spec_hidden d c c2 cs :
  backward_spec d (c :: c2 :: cs) =
    '(dout, gs) ← backward_spec d (c2 :: cs);
    '(dx, dW, db) ← affine_relu_backward dout c;
    Ok (dx, (dW, db) :: gs).
Proof. done. Qed.

(** Each backward primitive runs on the cache of the forward primitive of
    its layer, so each gradient has the shape of its parameter. *)
Lemma grad_shapes x ls sc cs d dx gs :
  forward_spec x ls = Ok (sc, cs) →
  backward_spec d cs = Ok (dx, gs) →
  length gs = length ls ∧
  ∀ (k : nat) W b dW db,
    ls !! k = Some (W, b) → gs !! k = Some (dW, db) →
    shape dW = shape W ∧ shape db = shape b.
Proof.
  revert x sc cs dx gs.
  induction ls as [|[W b] ls IH]; intros x sc cs dx gs Hf Hb; [done|].
  destruct ls as [|l ls].
  - rewrite forward_spec_last in Hf.
    destruct (affine_forward x W b) as [[o c]|] eqn:Hfw; [|done].
    cbn in Hf. injection Hf as <- <-.
    rewrite backward_spec_last in Hb.
    destruct (affine_backward d c) as [[[dx' dW] db]|] eqn:Hbw; [|done].
    cbn in Hb. injection Hb as <- <-. split; [done|].
    intros [|k] W' b' dW' db' [= <- <-] [= <- <-].
    by destruct (affine_backward_shape _ _ _ _ _ _ _ _ _ Hfw Hbw) as (_ & ? & ?).
  - rewrite forward_spec_hidden in Hf.
    destruct (affine_relu_forward x W b) as [[o c]|] eqn:Hfw; [|done].
    cbn [mbind outcome_bind] in Hf.
    destruct (forward_spec o (l :: ls)) as [[sc' cs']|] eqn:Hrec; [|done].
    cbn in Hf. injection Hf as <- <-.
    pose proof (forward_spec_length _ _ _ _ Hrec) as Hlen.
    destruct cs' as [|c2 cs']; [done|].
    rewrite backward_spec_hidden in Hb.
    destruct (backward_spec d (c2 :: cs')) as [[dout gs']|] eqn:Hbrec; [|done].
    cbn [mbind outcome_bind] in Hb.
    destruct (affine_relu_backward dout c) as [[[dx' dW] db]|] eqn:Hbw; [|done].
    cbn in Hb. injection Hb as <- <-.
    destruct (IH _ _ _ _ _ Hrec Hbrec) as [Hlen' Hshapes].
    split; [cbn [length]; by rewrite Hlen'|].
    intros [|k] W' b' dW' db' Hl Hg.
    + injection Hl as <- <-. injection Hg as <- <-.
      by destruct (affine_relu_backward_shape _ _ _ _ _ _ _ _ _ Hfw Hbw)
        as (_ & ? & ?).
    + by apply (Hshapes k).
Qed.

Lemma elem_of_param_keys key L :
  key ∈ param_keys L ↔
  ∃ j, 1 ≤ j ≤ L ∧ (key = fstr "W" j ∨ key = fstr "b" j).
Proof.
  unfold param_keys, py_range. rewrite elem_of_list_to_set, list_elem_of_bind.
  split.
  - intros (j & Hkey & Hj%elem_of_seqZ). exists j. split; [lia|].
    rewrite !elem_of_cons, elem_of_nil in Hkey. tauto.
  - intros (j & Hj & Hkey). exists j.
    rewrite elem_of_seqZ, !elem_of_cons. split; [tauto|lia].
Qed.

(** From the lookups and the frame of the backward loop to [grads_spec]. *)
Lemma grads_spec_intro reg ls gs grads x sc cs d dx :
  forward_spec x ls = Ok (sc, cs) →
  backward_spec d cs = Ok (dx, gs) →
  (∀ key, (∀ j, 1 ≤ j ≤ Z.of_nat (length ls) →
                key ≠ fstr "W" j ∧ key ≠ fstr "b" j) → grads !! key = None) →
  (∀ (k : nat) W b dW db, ls !! k = Some (W, b) → gs !! k = Some (dW, db) →
     ∃ gW, np_add dW (np_scale reg W) = Ok gW ∧
           grads !! fstr "W" (1 + Z.of_nat k) = Some gW ∧
           grads !! fstr "b" (1 + Z.of_nat k) = Some db) →
  grads_spec reg ls gs grads.
Proof.
  intros Hf Hb Hframe Hlook.
  destruct (grad_shapes _ _ _ _ _ _ _ Hf Hb) as [Hlen Hshapes].
  split; [done|]. split.
  - apply set_eq. intros key. rewrite elem_of_dom, elem_of_param_keys. split.
    + intros Hsome. destruct (decide (key ∈ param_keys (Z.of_nat (length ls))))
        as [Hin|Hout]; [by apply elem_of_param_keys|].
      rewrite Hframe in Hsome; [by destruct Hsome|].
      intros j Hj. split; intros ->; apply Hout, elem_of_param_keys; eauto.
    + intros (j & Hj & Hkey).
      destruct (lookup_lt_is_Some_2 ls (Z.to_nat (j - 1))) as [[W b] Hl]; [lia|].
      destruct (lookup_lt_is_Some_2 gs (Z.to_nat (j - 1))) as [[dW db] Hg];
        [lia|].
      destruct (Hlook _ _ _ _ _ Hl Hg) as (gW & _ & HgW & Hgb).
      replace (1 + Z.of_nat (Z.to_nat (j - 1))) with j in * by lia.
      destruct Hkey as [-> | ->]; eauto.
  - intros k W b dW db Hl Hg.
    destruct (Hlook _ _ _ _ _ Hl Hg) as (gW & Hadd & HgW & Hgb).
    destruct (Hshapes _ _ _ _ _ Hl Hg) as [HsW Hsb].
    exists gW. split_and!; try done.
    rewrite (shape_np_add _ _ _ Hadd); [done|].
    by rewrite shape_np_scale.
Qed.

End GradShapes.

(** ** The claims about the constructor, the modes and the frame *)

Section Claims.
Context `{B : Backend}.

(** C1.  With an empty [hidden_dims] the constructor does not return a
    single-layer network: the first iteration of its loop takes the
    [index == 1] branch before the [index == self.num_layers] branch and
    evaluates [hidden_dims[0]], which raises [IndexError]. *)
Theorem init_empty_hidden_dims_raises input_dim num_classes dropout
    use_batchnorm reg weight_scale dtype seed g :
  FullyConnectedNet.__init__ [] input_dim num_classes dropout use_batchnorm
    reg weight_scale dtype seed g = Raise IndexError.
Proof. reflexivity. Qed.

(** C7.  A call to [loss], on either class, in either mode and whatever its
    outcome, leaves [self.params] as it was; on a [TwoLayerNet] it leaves the
    whole object as it was. *)
Theorem loss_leaves_params_unchanged :
  (∀ X y (self : FullyConnectedNet.t),
     FullyConnectedNet.params (self_of (FullyConnectedNet.loss X y self)) =
     FullyConnectedNet.params self) ∧
  (∀ X y (self : TwoLayerNet.t), self_of (TwoLayerNet.loss X y self) = self).
Proof.
  split; intros X y self.
  - by rewrite loss_self, params_set_modes.
  - cut (preserves (λ s, s = self) (TwoLayerNet.loss X y)).
    { intros H. by apply H. }
    unfold TwoLayerNet.loss, TwoLayerNet.get_param, call_softmax_loss.
    preserves_tac.
Qed.

(** C9.  The outcome of [loss] (the scores, or the loss and the gradient
    dictionary, or the exception) is a function of [X], [y], the parameters,
    the regularization strength, the depth and the datatype: two calls on
    objects that agree on these, such as two calls in a row on one object,
    have the same outcome. *)
Theorem loss_deterministic X y (s1 s2 : FullyConnectedNet.t) :
  same_model s1 s2 →
  outcome_of (FullyConnectedNet.loss X y s1) =
  outcome_of (FullyConnectedNet.loss X y s2).
Proof. intros HR. by destruct (loss_agree X y s1 s2 HR) as (-> & _). Qed.

End Claims.


Section Claims2.
Context `{B : Backend}.
Import FullyConnectedNet.

Lemma init_dropout_param hidden_dims input_dim num_classes dropout ub
    reg0 weight_scale dtype0 seed g self g' :
  __init__ hidden_dims input_dim num_classes dropout ub reg0 weight_scale
    dtype0 seed g = Ok (self, g') →
  ∃ d, dropout_param self = Some d ∧ (py_gt0 dropout = false → d = ∅).
Proof.
  unfold __init__. intros H.
  destruct (for_each _ _ _) as [[ps g1]|e]; simpl in H; [|done].
  injection H as <- <-. simpl. eexists. split; [done|]. by intros ->.
Qed.

Lemma reachable_dropout_param self :
  reachable self → ∃ d, dropout_param self = Some d.
Proof.
  induction 1 as [|self X y _ [d Hd]].
  - match goal with
    | H : __init__ _ _ _ _ _ _ _ _ _ _ = _ |- _ =>
        apply init_dropout_param in H as (d & ? & _)
    end. eauto.
  - rewrite loss_self. unfold set_modes. rewrite Hd. simpl.
    case_match; simpl; eauto.
Qed.

(** C10.  On every network object a program can hold, [dropout_param] is a
    dictionary, never [None] (it is the empty dictionary when dropout is
    disabled), and every call to [loss] stores the mode under its key
    ["mode"]: ["train"] with labels, ["test"] without. *)
Theorem loss_writes_dropout_mode self X y :
  reachable self →
  ∃ d, dropout_param self = Some d ∧
       dropout_param (self_of (loss X y self)) =
         Some (<["mode" := PStr (mode_of y)]> d) ∧
       <["mode" := PStr (mode_of y)]> d !! "mode" = Some (PStr (mode_of y)).
Proof.
  intros [d Hd]%reachable_dropout_param. exists d. split; [done|]. split.
  - rewrite loss_self. unfold set_modes. rewrite Hd. simpl. by case_match.
  - apply lookup_insert_eq.
Qed.

Lemma bn_params_set_modes y self :
  bn_params (set_modes y self) =
    if use_batchnorm self
    then (λ bn : dict, <[mode_of y := PStr (mode_of y)]> bn) <$> bn_params self
    else bn_params self.
Proof.
  unfold set_modes. destruct (dropout_param self); simpl;
    by destruct (use_batchnorm self).
Qed.

Lemma bn_mode_kept_in_test X self :
  (λ bn : dict, bn !! "mode") <$> bn_params (self_of (loss X None self)) =
  (λ bn : dict, bn !! "mode") <$> bn_params self.
Proof.
  rewrite loss_self, bn_params_set_modes. destruct (use_batchnorm self); [|done].
  rewrite <- list_fmap_compose. apply list_fmap_ext. intros i bn _. simpl.
  by rewrite lookup_insert_ne.
Qed.
End Claims2.



(** ** A call with labels that returns *)

Lemma py_getitem_ok {V} (d : gmap string V) k v :
  py_getitem d k = Ok v → d !! k = Some v.
Proof. unfold py_getitem. destruct (d !! k); [|done]. by intros [= ->]. Qed.

Lemma two_layer_get_param `{B : Backend} key (self : TwoLayerNet.t) :
  TwoLayerNet.get_param key self =
    Run (py_getitem (TwoLayerNet.params self) key) self [].
Proof. done. Qed.

Lemma layers_of_two `{B : Backend} (ps : gmap string array) W1 b1 W2 b2 :
  ps !! "W1" = Some W1 → ps !! "b1" = Some b1 →
  ps !! "W2" = Some W2 → ps !! "b2" = Some b2 →
  layers_of ps 2 = Some [(W1, b1); (W2, b2)].
Proof.
  intros HW1 Hb1 HW2 Hb2. unfold layers_of.
  change (py_range 1 (2 + 1)) with [1; 2]. cbn [mapM].
  rewrite (layer_param_Some ps 1 W1 b1), (layer_param_Some ps 2 W2 b2) by done.
  done.
Qed.

(** After one inversion of a bind in [TwoLayerNet.loss]: the parameter
    reads and the calls are replaced by their runs. *)
#[local] Ltac tl_step H :=
  rewrite ?two_layer_get_param in *;
  cbn [m_call m_lift m_get m_ret call_softmax_loss
       outcome_of self_of calls_of] in H |- *.

Section TrainingRuns.
Context `{B : Backend}.

Lemma attrs_set_modes y (self : FullyConnectedNet.t) :
  FullyConnectedNet.reg (set_modes y self) = FullyConnectedNet.reg self ∧
  FullyConnectedNet.num_layers (set_modes y self) =
    FullyConnectedNet.num_layers self ∧
  FullyConnectedNet.dtype (set_modes y self) = FullyConnectedNet.dtype self ∧
  FullyConnectedNet.use_batchnorm (set_modes y self) =
    FullyConnectedNet.use_batchnorm self ∧
  FullyConnectedNet.use_dropout (set_modes y self) =
    FullyConnectedNet.use_dropout self.
Proof. unfold set_modes. by repeat case_match. Qed.

(** What [TwoLayerNet.loss] computed when it returns from a call with
    labels. *)
Lemma two_layer_train_ok X y (self : TwoLayerNet.t) r :
  outcome_of (TwoLayerNet.loss X (Some y) self) = Ok r →
  ∃ W1 b1 W2 b2 h c1 scores c2 n1 n2 softmax dscores dh dW2 db2 dx dW1 db1
    gW1 gW2,
    TwoLayerNet.params self !! "W1" = Some W1 ∧
    TwoLayerNet.params self !! "b1" = Some b1 ∧
    TwoLayerNet.params self !! "W2" = Some W2 ∧
    TwoLayerNet.params self !! "b2" = Some b2 ∧
    affine_relu_forward X W1 b1 = Ok (h, c1) ∧
    affine_forward h W2 b2 = Ok (scores, c2) ∧
    np_linalg_norm_fro W1 = Ok n1 ∧ np_linalg_norm_fro W2 = Ok n2 ∧
    softmax_loss scores y = Ok (softmax, dscores) ∧
    affine_backward dscores c2 = Ok (dh, dW2, db2) ∧
    affine_relu_backward dh c1 = Ok (dx, dW1, db1) ∧
    np_add dW2 (np_scale (TwoLayerNet.reg self) W2) = Ok gW2 ∧
    np_add dW1 (np_scale (TwoLayerNet.reg self) W1) = Ok gW1 ∧
    r = LossGrads
          (s_add softmax
             (s_mul (s_mul (TwoLayerNet.reg self) s_half)
                    (s_add (s_sq n1) (s_sq n2))))
          (<["b1" := db1]> (<["W1" := gW1]> (<["b2" := db2]>
             (<["W2" := gW2]> ∅)))) ∧
    fn <$> calls_of (TwoLayerNet.loss X (Some y) self) =
      loss_calls 2 (Some y).
Proof.
  intros Hr. unfold TwoLayerNet.loss in Hr |- *.
  apply bind_ok_inv in Hr as (W1 & HW1 & Hr & _ & ->). tl_step Hr.
  apply bind_ok_inv in Hr as (b1 & Hb1 & Hr & _ & ->). tl_step Hr.
  apply bind_ok_inv in Hr as ([h c1] & Hf1 & Hr & _ & ->). tl_step Hr.
  apply bind_ok_inv in Hr as (W2 & HW2 & Hr & _ & ->). tl_step Hr.
  apply bind_ok_inv in Hr as (b2 & Hb2 & Hr & _ & ->). tl_step Hr.
  apply bind_ok_inv in Hr as ([scores c2] & Hf2 & Hr & _ & ->). tl_step Hr.
  apply bind_ok_inv in Hr as (W1' & HW1' & Hr & _ & ->). tl_step Hr.
  apply bind_ok_inv in Hr as (n1 & Hn1 & Hr & _ & ->). tl_step Hr.
  apply bind_ok_inv in Hr as (W2' & HW2' & Hr & _ & ->). tl_step Hr.
  apply bind_ok_inv in Hr as (n2 & Hn2 & Hr & _ & ->). tl_step Hr.
  apply bind_ok_inv in Hr as ([softmax dscores] & Hsm & Hr & _ & ->). tl_step Hr.
  apply bind_ok_inv in Hr as (s0 & [= <-] & Hr & _ & ->). tl_step Hr.
  apply bind_ok_inv in Hr as ([[dh dW2] db2] & Hbk2 & Hr & _ & ->). tl_step Hr.
  apply bind_ok_inv in Hr as (s0 & [= <-] & Hr & _ & ->). tl_step Hr.
  apply bind_ok_inv in Hr as (W2'' & HW2'' & Hr & _ & ->). tl_step Hr.
  apply bind_ok_inv in Hr as (gW2 & Ha2 & Hr & _ & ->). tl_step Hr.
  apply bind_ok_inv in Hr as ([[dx dW1] db1] & Hbk1 & Hr & _ & ->). tl_step Hr.
  apply bind_ok_inv in Hr as (s0 & [= <-] & Hr & _ & ->). tl_step Hr.
  apply bind_ok_inv in Hr as (W1'' & HW1'' & Hr & _ & ->). tl_step Hr.
  apply bind_ok_inv in Hr as (gW1 & Ha1 & Hr & _ & ->). tl_step Hr.
  injection Hr as <-.
  apply py_getitem_ok in HW1, Hb1, HW2, Hb2, HW1', HW2', HW1'', HW2''.
  assert (W1' = W1) as -> by congruence. assert (W2' = W2) as -> by congruence.
  assert (W1'' = W1) as -> by congruence.
  assert (W2'' = W2) as -> by congruence.
  exists W1, b1, W2, b2, h, c1, scores, c2, n1, n2, softmax, dscores, dh, dW2,
    db2, dx, dW1, db1, gW1, gW2.
  by split_and!.
Qed.

End TrainingRuns.

Section TrainingClaims.
Context `{B : Backend}.

(** What [FullyConnectedNet.loss] computed when it returns from a call with
    labels. *)
Lemma loss_train_ok X y (self : FullyConnectedNet.t) r :
  outcome_of (FullyConnectedNet.loss X (Some y) self) = Ok r →
  ∃ ls scores cs softmax dscores norms dx gs grads,
    layers_of (FullyConnectedNet.params self)
              (FullyConnectedNet.num_layers self) = Some ls ∧
    Z.of_nat (length ls) = FullyConnectedNet.num_layers self ∧
    forward_spec (astype X (FullyConnectedNet.dtype self)) ls = Ok (scores, cs) ∧
    softmax_loss scores y = Ok (softmax, dscores) ∧
    norms_spec ls norms ∧
    backward_spec dscores cs = Ok (dx, gs) ∧
    r = LossGrads
          (s_add softmax
             (s_mul (s_mul s_half (FullyConnectedNet.reg self)) (np_sum norms)))
          grads ∧
    (∀ key, (∀ j, 1 ≤ j ≤ Z.of_nat (length ls) →
                  key ≠ fstr "W" j ∧ key ≠ fstr "b" j) → grads !! key = None) ∧
    (∀ (k : nat) W b dW db, ls !! k = Some (W, b) → gs !! k = Some (dW, db) →
       ∃ gW, np_add dW (np_scale (FullyConnectedNet.reg self) W) = Ok gW ∧
             grads !! fstr "W" (1 + Z.of_nat k) = Some gW ∧
             grads !! fstr "b" (1 + Z.of_nat k) = Some db) ∧
    fn <$> calls_of (FullyConnectedNet.loss X (Some y) self) =
      loss_calls (FullyConnectedNet.num_layers self) (Some y).
Proof.
  destruct (loss_unfold X (Some y) self) as (-> & _ & ->). cbn [mode_of].
  intros Hr. apply loss_passes_train_ok in Hr
    as (n & ls & scores & cs & softmax & dscores & norms & dx & gs & grads &
        HL & Hls & Hf & Hsm & Hn & Hb & Hgs & -> & Hframe & Hlook & Hcalls).
  destruct (attrs_set_modes (Some y) self) as (Hreg & Hnl & _).
  rewrite params_set_modes, Hreg, Hnl in *.
  assert (Z.of_nat (length ls) = FullyConnectedNet.num_layers self) as Hlen.
  { unfold layers_of, py_range in Hls. apply length_mapM in Hls as <-.
    rewrite length_seqZ. lia. }
  exists ls, scores, cs, softmax, dscores, norms, dx, gs, grads.
  split_and!; try done.
  - by rewrite Hlen.
  - intros k W b dW db Hl Hg.
    destruct (Hlook k dW db Hg) as (W' & gW & HW' & Hadd & HgW & Hgb).
    unfold layers_of, py_range in Hls. apply mapM_Some_1 in Hls.
    destruct (Forall2_lookup_r _ _ _ _ _ Hls Hl) as (i & Hi & Hp).
    apply lookup_seqZ in Hi as [-> _].
    apply layer_param_inv in Hp as [HW _].
    exists gW. split_and!; try done. congruence.
Qed.

(** C4.  When a call with labels returns [(loss, grads)], on either class:
    the forward pass of the specification returned the scores and the caches,
    the backward pass on these caches returned the [(dW_i, db_i)], and
    [grads] has exactly the keys [W1 .. WL], [b1 .. bL], with
    [grads[W_i] = dW_i + reg * W_i] and [grads[b_i] = db_i], shaped like
    [W_i] and [b_i]. *)
Theorem loss_grads_regularized `{!BackendLaws B} :
  (∀ X y (self : FullyConnectedNet.t) l grads,
     outcome_of (FullyConnectedNet.loss X (Some y) self) =
       Ok (LossGrads l grads) →
     ∃ ls scores cs softmax dscores dx gs,
       layers_of (FullyConnectedNet.params self)
                 (FullyConnectedNet.num_layers self) = Some ls ∧
       Z.of_nat (length ls) = FullyConnectedNet.num_layers self ∧
       forward_spec (astype X (FullyConnectedNet.dtype self)) ls =
         Ok (scores, cs) ∧
       softmax_loss scores y = Ok (softmax, dscores) ∧
       backward_spec dscores cs = Ok (dx, gs) ∧
       grads_spec (FullyConnectedNet.reg self) ls gs grads) ∧
  (∀ X y (self : TwoLayerNet.t) l grads,
     outcome_of (TwoLayerNet.loss X (Some y) self) = Ok (LossGrads l grads) →
     ∃ ls scores cs softmax dscores dx gs,
       layers_of (TwoLayerNet.params self) 2 = Some ls ∧
       forward_spec X ls = Ok (scores, cs) ∧
       softmax_loss scores y = Ok (softmax, dscores) ∧
       backward_spec dscores cs = Ok (dx, gs) ∧
       grads_spec (TwoLayerNet.reg self) ls gs grads).
Proof.
  split; intros X y self l grads Hr.
  - apply loss_train_ok in Hr
      as (ls & scores & cs & softmax & dscores & norms & dx & gs & grads' &
          Hls & Hlen & Hf & Hsm & Hn & Hb & [= -> ->] & Hframe & Hlook & _).
    exists ls, scores, cs, softmax, dscores, dx, gs.
    split_and!; try done. by eapply grads_spec_intro.
  - apply two_layer_train_ok in Hr
      as (W1 & b1 & W2 & b2 & h & c1 & scores & c2 & n1 & n2 & softmax &
          dscores & dh & dW2 & db2 & dx & dW1 & db1 & gW1 & gW2 &
          HW1 & Hb1 & HW2 & Hb2 & Hf1 & Hf2 & _ & _ & Hsm & Hbk2 & Hbk1 &
          Ha2 & Ha1 & [= -> ->] & _).
    assert (forward_spec X [(W1, b1); (W2, b2)] = Ok (scores, [c1; c2])) as Hf.
    { cbn. rewrite Hf1. cbn. by rewrite Hf2. }
    assert (backward_spec dscores [c1; c2] =
            Ok (dx, [(dW1, db1); (dW2, db2)])) as Hb.
    { cbn. rewrite Hbk2. cbn. by rewrite Hbk1. }
    exists [(W1, b1); (W2, b2)], scores, [c1; c2], softmax, dscores, dx,
      [(dW1, db1); (dW2, db2)].
    split_and!; try done.
    { by apply layers_of_two. }
    eapply grads_spec_intro; [done|done| |].
    + intros key Hkey.
      destruct (Hkey 1) as [Hk1 Hk2]; [simpl; lia|].
      destruct (Hkey 2) as [Hk3 Hk4]; [simpl; lia|].
      rewrite !lookup_insert_ne by done. apply lookup_empty.
    + intros [|[|k]] W b dW db [= <- <-] [= <- <-].
      * exists gW1. split; [done|]. split; by simplify_map_eq.
      * exists gW2. split; [done|]. split; by simplify_map_eq.
Qed.

End TrainingClaims.

Section LossValue.
Context `{B : Backend}.

(** C5.  When a call with labels returns [(loss, grads)]: [loss] is the
    softmax loss of the scores plus [0.5 * reg] times the sum of the squared
    Frobenius norms of the weight matrices [W_1 .. W_L]; no bias enters the
    sum.  ([TwoLayerNet] writes the factor [reg * 0.5] and the sum of its two
    norms with [+].) *)
Theorem loss_value_regularized :
  (∀ X y (self : FullyConnectedNet.t) l grads,
     outcome_of (FullyConnectedNet.loss X (Some y) self) =
       Ok (LossGrads l grads) →
     ∃ ls scores cs softmax dscores norms,
       layers_of (FullyConnectedNet.params self)
                 (FullyConnectedNet.num_layers self) = Some ls ∧
       forward_spec (astype X (FullyConnectedNet.dtype self)) ls =
         Ok (scores, cs) ∧
       softmax_loss scores y = Ok (softmax, dscores) ∧
       norms_spec ls norms ∧
       l = s_add softmax
             (s_mul (s_mul s_half (FullyConnectedNet.reg self))
                    (np_sum norms))) ∧
  (∀ X y (self : TwoLayerNet.t) l grads,
     outcome_of (TwoLayerNet.loss X (Some y) self) = Ok (LossGrads l grads) →
     ∃ ls scores cs softmax dscores n1 n2,
       layers_of (TwoLayerNet.params self) 2 = Some ls ∧
       forward_spec X ls = Ok (scores, cs) ∧
       softmax_loss scores y = Ok (softmax, dscores) ∧
       norms_spec ls [n1; n2] ∧
       l = s_add softmax
             (s_mul (s_mul (TwoLayerNet.reg self) s_half) (s_add n1 n2))).
Proof.
  split; intros X y self l grads Hr.
  - apply loss_train_ok in Hr
      as (ls & scores & cs & softmax & dscores & norms & dx & gs & grads' &
          Hls & _ & Hf & Hsm & Hn & _ & [= -> ->] & _).
    by exists ls, scores, cs, softmax, dscores, norms.
  - apply two_layer_train_ok in Hr
      as (W1 & b1 & W2 & b2 & h & c1 & scores & c2 & n1 & n2 & softmax &
          dscores & dh & dW2 & db2 & dx & dW1 & db1 & gW1 & gW2 &
          HW1 & Hb1 & HW2 & Hb2 & Hf1 & Hf2 & Hn1 & Hn2 & Hsm & _ & _ &
          _ & _ & [= -> ->] & _).
    exists [(W1, b1); (W2, b2)], scores, [c1; c2], softmax, dscores,
      (s_sq n1), (s_sq n2).
    split_and!; try done.
    + by apply layers_of_two.
    + cbn. rewrite Hf1. cbn. by rewrite Hf2.
    + repeat constructor; eexists; eauto.
Qed.

End LossValue.

(** ** The symbolic backend keeps the shape contracts *)

#[global] Instance symbolic_laws : BackendLaws Symbolic.backend.
Proof.
  split.
  - done.
  - done.
  - intros a b c. cbn. unfold Symbolic.s_add_arr.
    case_bool_decide; [|done]. by intros [= <-].
  - intros x W b N ds D M Hx HW Hb HN HD Hds. cbn in *.
    unfold Symbolic.s_affine. rewrite Hx, HW, Hb.
    replace (0 <? N) with true by lia. replace (0 <? D) with true by lia.
    replace (Zprod ds =? D) with true by lia.
    replace (M =? M) with true by lia. cbn. eauto.
  - intros x W b N ds D M Hx HW Hb HN HD Hds. cbn in *.
    unfold Symbolic.s_affine. rewrite Hx, HW, Hb.
    replace (0 <? N) with true by lia. replace (0 <? D) with true by lia.
    replace (Zprod ds =? D) with true by lia.
    replace (M =? M) with true by lia. cbn. eauto.
  - intros x W b out c dout dx dW db. cbn.
    unfold Symbolic.s_affine, Symbolic.s_affine_back. intros Hf Hb.
    repeat case_match; simplify_eq; cbn in *; split_and!; congruence.
  - intros x W b out c dout dx dW db. cbn.
    unfold Symbolic.s_affine, Symbolic.s_affine_back. intros Hf Hb.
    repeat case_match; simplify_eq; cbn in *; split_and!; congruence.
Qed.



(** ** Calls without labels, and the calls [loss] makes *)

Section Inference.
Context `{B : Backend}.
Import FullyConnectedNet.

(** In test mode the passes are the forward loop and the early return. *)
Lemma loss_passes_test X y self :
  outcome_of (loss_passes X y "test" self) =
    match outcome_of (m_for forward_layer (py_range 1 (num_layers self + 1))
                        (X, None, []) self) with
    | Ok (_, scores, _) => Ok (Scores scores)
    | Raise e => Raise e
    end ∧
  calls_of (loss_passes X y "test" self) =
    calls_of (m_for forward_layer (py_range 1 (num_layers self + 1))
                (X, None, []) self).
Proof.
  unfold loss_passes, m_bind. cbn.
  destruct (outcome_of (m_for forward_layer _ _ self)) as [[[o sc] cl]|];
    cbn; by rewrite ?app_nil_r.
Qed.

Lemma not_a_dict_call_intro name actuals :
  name ∈ layer_primitives →
  Forall (λ a, match a with ADict _ => False | _ => True end) actuals →
  not_a_dict_call (Call name actuals).
Proof.
  intros Hname Hargs. split; [done|]. intros [d Hd]. cbn in Hd.
  rewrite Forall_forall in Hargs. by apply Hargs in Hd.
Qed.

(** Every call [loss] makes is to one of the five layer primitives, and none
    is handed a dictionary. *)
Lemma loss_calls_no_dict X y : calls_all not_a_dict_call (loss X y).
Proof.
  intros self. destruct (loss_unfold X y self) as (_ & _ & ->).
  generalize (set_modes y self). generalize (astype X (dtype self)).
  generalize (mode_of y). clear. intros mode X self. revert self.
  change (calls_all not_a_dict_call (loss_passes X y mode)).
  unfold loss_passes, forward_layer, backward_layer, regularization_norm,
    get_param, call_softmax_loss.
  calls_all_tac;
    (apply calls_all_call, not_a_dict_call_intro;
     [unfold layer_primitives; rewrite !elem_of_cons; tauto
     |repeat constructor; by destruct y]).
Qed.

Lemma forward_layer_calls st index :
  calls_all (λ c, fn c ∈ ["affine_relu_forward"; "affine_forward"])
            (forward_layer st index).
Proof.
  unfold forward_layer, get_param. destruct st as [[o sc] cl].
  calls_all_tac; apply calls_all_call; cbn; rewrite !elem_of_cons; tauto.
Qed.

End Inference.

Section InferenceClaims.
Context `{B : Backend} `{!BackendLaws B}.

Lemma two_layer_inference X (self : TwoLayerNet.t) D H C N ds :
  well_shaped2 D H C self = true →
  shape X = N :: ds → 0 < N → Zprod ds = D →
  ∃ scores,
    outcome_of (TwoLayerNet.loss X None self) = Ok (Scores (Some scores)) ∧
    shape scores = [N; C] ∧
    fn <$> calls_of (TwoLayerNet.loss X None self) = forward_calls 2 ∧
    self_of (TwoLayerNet.loss X None self) = self.
Proof.
  unfold well_shaped2. intros Hwf HX HN Hds.
  apply andb_prop in Hwf as [Hwf Hl2]. apply andb_prop in Hwf as [Hwf Hl1].
  apply andb_prop in Hwf as [Hwf HC]. apply andb_prop in Hwf as [HD HH].
  apply layer_ok_inv in Hl1 as (W1 & b1 & HW1 & Hb1 & HsW1 & Hsb1).
  apply layer_ok_inv in Hl2 as (W2 & b2 & HW2 & Hb2 & HsW2 & Hsb2).
  change (fstr "W" 1) with "W1" in HW1. change (fstr "b" 1) with "b1" in Hb1.
  change (fstr "W" 2) with "W2" in HW2. change (fstr "b" 2) with "b2" in Hb2.
  destruct (affine_relu_forward_shape X W1 b1 N ds D H)
    as (h & c1 & Hf1 & Hsh); try done; [lia|].
  destruct (affine_forward_shape h W2 b2 N [H] H C)
    as (scores & c2 & Hf2 & Hss); try done; [lia|simpl; lia|].
  exists scores.
  assert (∀ key W, TwoLayerNet.params self !! key = Some W →
            outcome_of (TwoLayerNet.get_param key self) = Ok W) as Hget.
  { intros key W HW. rewrite two_layer_get_param. cbn. unfold py_getitem.
    by rewrite HW. }
  unfold TwoLayerNet.loss.
  rewrite (bind_ok_run _ _ _ W1) by auto. tl_step HW1.
  rewrite (bind_ok_run _ _ _ b1) by auto. tl_step HW1.
  rewrite (bind_ok_run _ _ _ (h, c1)) by done. tl_step HW1.
  rewrite (bind_ok_run _ _ _ W2) by auto. tl_step HW1.
  rewrite (bind_ok_run _ _ _ b2) by auto. tl_step HW1.
  rewrite (bind_ok_run _ _ _ (scores, c2)) by done. tl_step HW1.
  done.
Qed.

(** C6.  A call without labels on a well-shaped network, with a batch of
    [N] inputs of the network's input size: it returns the scores alone, of
    shape [(N, num_classes)]; the calls it makes are the forward primitives
    of the layers, so no gradient is computed; and afterwards [self] is what
    it was but for the two mode entries (a [TwoLayerNet] is unchanged): no
    cache is kept.  On any network at all, a call without labels that
    returns, returns scores, and it calls forward primitives only. *)
Theorem loss_inference :
  (∀ X (self : FullyConnectedNet.t) dims N ds D,
     well_shaped dims self = true →
     shape X = N :: ds → 0 < N → dims !! 0%nat = Some D → Zprod ds = D →
     ∃ scores C,
       outcome_of (FullyConnectedNet.loss X None self) =
         Ok (Scores (Some scores)) ∧
       last dims = Some C ∧ shape scores = [N; C] ∧
       fn <$> calls_of (FullyConnectedNet.loss X None self) =
         forward_calls (FullyConnectedNet.num_layers self) ∧
       self_of (FullyConnectedNet.loss X None self) = set_modes None self) ∧
  (∀ X (self : TwoLayerNet.t) D H C N ds,
     well_shaped2 D H C self = true →
     shape X = N :: ds → 0 < N → Zprod ds = D →
     ∃ scores,
       outcome_of (TwoLayerNet.loss X None self) = Ok (Scores (Some scores)) ∧
       shape scores = [N; C] ∧
       fn <$> calls_of (TwoLayerNet.loss X None self) = forward_calls 2 ∧
       self_of (TwoLayerNet.loss X None self) = self) ∧
  (∀ X (self : FullyConnectedNet.t),
     Forall (λ c, fn c ∈ ["affine_relu_forward"; "affine_forward"])
            (calls_of (FullyConnectedNet.loss X None self)) ∧
     ∀ r, outcome_of (FullyConnectedNet.loss X None self) = Ok r →
          ∃ scores, r = Scores scores).
Proof.
  split_and!.
  - intros X self dims N ds D Hwf HX HN HD Hds.
    destruct (loss_unfold X None self) as (-> & _ & ->). cbn [mode_of].
    destruct (loss_passes_test (astype X (FullyConnectedNet.dtype self)) None
                (set_modes None self)) as [-> ->].
    destruct (attrs_set_modes None self) as (_ & Hnl & _).
    unfold py_range. rewrite Hnl.
    unfold well_shaped in Hwf.
    apply andb_prop in Hwf as [Hwf Hok]. apply andb_prop in Hwf as [Hwf Hpos].
    apply andb_prop in Hwf as [HL HL1].
    apply Z.eqb_eq in HL. apply Z.leb_le in HL1.
    set (n := Z.to_nat (FullyConnectedNet.num_layers self)).
    replace (FullyConnectedNet.num_layers self + 1 - 1) with (Z.of_nat n)
      by lia.
    destruct (forward_loop_total n dims 1
                (astype X (FullyConnectedNet.dtype self)) None []
                (set_modes None self) N ds D)
      as (out & sc & cl & C & Hrun & Hlast & Hsc);
      [rewrite Hnl; lia | lia | lia | done
      | by rewrite params_set_modes
      | by rewrite shape_astype | done | done | done |].
    exists sc, C. rewrite Hrun. split_and!; try done.
    + destruct (forward_loop_ok n 1 _ None [] (set_modes None self) _
                  ltac:(rewrite Hnl; lia) ltac:(lia) Hrun)
        as (_ & _ & _ & _ & _ & _ & _ & ->).
      unfold forward_calls. f_equal. f_equal. lia.
    + apply loss_self.
  - intros. by eapply two_layer_inference.
  - intros X self.
    destruct (loss_unfold X None self) as (-> & _ & ->). cbn [mode_of].
    destruct (loss_passes_test (astype X (FullyConnectedNet.dtype self)) None
                (set_modes None self)) as [-> ->].
    split.
    + apply calls_all_for. intros. apply forward_layer_calls.
    + intros r. destruct (outcome_of _) as [[[o sc] cl]|]; [|done].
      intros [= <-]. eauto.
Qed.

End InferenceClaims.


Section CollaboratorClaims.
Context `{B : Backend}.
Import FullyConnectedNet.

Lemma init_num_layers hidden_dims input_dim num_classes dropout ub
    reg0 weight_scale dtype0 seed g self g' :
  __init__ hidden_dims input_dim num_classes dropout ub reg0 weight_scale
    dtype0 seed g = Ok (self, g') →
  num_layers self = 1 + Z.of_nat (length hidden_dims) ∧
  use_dropout self = py_gt0 dropout ∧ use_batchnorm self = ub.
Proof.
  unfold __init__. intros H.
  destruct (for_each _ _ _) as [[ps g1]|e]; simpl in H; [|done].
  by injection H as <- <-.
Qed.

Lemma reachable_num_layers self : reachable self → 1 ≤ num_layers self.
Proof.
  induction 1 as [|self X y _ IH].
  - match goal with
    | H : __init__ _ _ _ _ _ _ _ _ _ _ = _ |- _ =>
        apply init_num_layers in H as (-> & _)
    end. lia.
  - rewrite loss_self. by destruct (attrs_set_modes y self) as (_ & -> & _).
Qed.

(** The calls of a returning [loss], by name and in order. *)
Lemma loss_call_names X y self r :
  1 ≤ num_layers self →
  outcome_of (loss X y self) = Ok r →
  fn <$> calls_of (loss X y self) = loss_calls (num_layers self) y.
Proof.
  intros HL Hr. destruct y as [y|].
  - by apply loss_train_ok in Hr as (?&?&?&?&?&?&?&?&?&?&?&?&?&?&?&?&?&?&?).
  - destruct (loss_unfold X None self) as (Ho & _ & ->). rewrite Ho in Hr.
    cbn [mode_of] in *.
    destruct (loss_passes_test (astype X (dtype self)) None
                (set_modes None self)) as [Ho' ->]. rewrite Ho' in Hr.
    destruct (attrs_set_modes None self) as (_ & Hnl & _).
    unfold py_range in *. rewrite Hnl in *.
    set (n := Z.to_nat (num_layers self)).
    replace (num_layers self + 1 - 1) with (Z.of_nat n) in * by lia.
    destruct (outcome_of (m_for forward_layer _ _ _)) as [[[o sc] cl]|] eqn:Hrun;
      [|done].
    destruct (forward_loop_ok n 1 _ None [] (set_modes None self) _
                ltac:(rewrite Hnl; lia) ltac:(lia) Hrun)
      as (_ & _ & _ & _ & _ & _ & _ & ->).
    unfold loss_calls, forward_calls. rewrite app_nil_r. f_equal. f_equal. lia.
Qed.

(** What [loss] calls.  On every network object a program can hold,
    whatever [dropout] and [use_batchnorm] were: every call [loss] makes is
    to one of the five affine, ReLU and softmax primitives and none is handed
    a dictionary, so neither [dropout_param] nor an entry of [bn_params]
    reaches a collaborator; and a call that returns has run
    [affine_relu_forward] once per hidden layer, then [affine_forward], then,
    with labels, [softmax_loss], [affine_backward] and [affine_relu_backward]
    once per hidden layer, and nothing else. *)
Lemma loss_invokes_affine_relu_only self X y :
  reachable self →
  Forall (λ c, fn c ∈ layer_primitives ∧ ¬ takes_dict c)
         (calls_of (loss X y self)) ∧
  (∀ c, c ∈ calls_of (loss X y self) →
        ¬ takes_param_dict (self_of (loss X y self)) c) ∧
  (∀ r, outcome_of (loss X y self) = Ok r →
        fn <$> calls_of (loss X y self) = loss_calls (num_layers self) y).
Proof.
  intros Hreach. pose proof (loss_calls_no_dict X y self) as Hall.
  split_and!.
  - exact Hall.
  - intros c Hc (d & Hd & _). rewrite Forall_forall in Hall.
    destruct (Hall c Hc) as [_ Hno]. apply Hno. by exists d.
  - intros r. by apply loss_call_names, reachable_num_layers.
Qed.

End CollaboratorClaims.



(** ** Indexing and the dropout test of the constructor *)

Section Constructor.
Context `{B : Backend}.
Import FullyConnectedNet.

Lemma py_index_in_range {A} (l : list A) (i : Z) :
  0 ≤ i < Z.of_nat (length l) →
  ∃ x, py_index l i = Ok x ∧ l !! Z.to_nat i = Some x.
Proof.
  intros Hi. unfold py_index. cbv zeta.
  assert ((i <? 0) = false) as Hlt by (apply Z.ltb_ge; lia).
  assert ((Z.of_nat (length l) <=? i) = false) as Hle by (apply Z.leb_gt; lia).
  rewrite Hlt. cbv iota. rewrite Hlt, Hle. cbn [orb].
  destruct (lookup_lt_is_Some_2 l (Z.to_nat i)) as [x Hx]; [lia|].
  rewrite Hx. eauto.
Qed.



End Constructor.





(** ** Runs on concrete networks *)


Lemma returned_grads_inv `{B : Backend} (r : outcome retval) :
  returned_grads r = true → ∃ l grads, r = Ok (LossGrads l grads).
Proof. destruct r as [[|l grads]|]; try done. eauto. Qed.

Lemma same_model_loss `{B : Backend} X y (self : FullyConnectedNet.t) :
  same_model self (self_of (FullyConnectedNet.loss X y self)).
Proof.
  rewrite loss_self. unfold same_model.
  rewrite params_set_modes. by destruct (attrs_set_modes y self) as (-> & -> & -> & _).
Qed.

(** The constructors build the example networks. *)
Lemma make_full : Examples.make [3] (1 # 2) true = Ok (Examples.net_full, 2).
Proof. vm_cast_no_check (eq_refl (Ok (Examples.net_full, 2))). Qed.

Lemma make_plain : Examples.make [3] 0 false = Ok (Examples.net_plain, 2).
Proof. vm_cast_no_check (eq_refl (Ok (Examples.net_plain, 2))). Qed.

Lemma make2_net2 : Examples.make2 = Ok (Examples.net2, 2).
Proof. vm_cast_no_check (eq_refl (Ok (Examples.net2, 2))). Qed.

Lemma reachable_full : reachable Examples.net_full.
Proof.
  exact (reachable_init (B := Symbolic.backend) [3] 4 2 (1 # 2)%Q true
           (Symbolic.TLit (1 # 10)) (Symbolic.TLit (1 # 100)) "float64"
           (Some 7) 0 _ _ make_full).
Qed.

Lemma reachable_plain : reachable Examples.net_plain.
Proof.
  exact (reachable_init (B := Symbolic.backend) [3] 4 2 0%Q false
           (Symbolic.TLit (1 # 10)) (Symbolic.TLit (1 # 100)) "float64"
           (Some 7) 0 _ _ make_plain).
Qed.

Lemma train_full_returns :
  returned_grads
    (outcome_of (FullyConnectedNet.loss Examples.X (Some Examples.y)
                   Examples.net_full)) = true.
Proof. vm_compute. reflexivity. Qed.

Lemma train_net2_returns :
  returned_grads
    (outcome_of (TwoLayerNet.loss Examples.X (Some Examples.y) Examples.net2))
  = true.
Proof. vm_compute. reflexivity. Qed.

(** C3.  On the network built with [use_batchnorm=True], a call [loss(X)]
    without labels leaves ["mode"] at ["train"] in the [bn_params] entry and
    adds the key ["test"] instead: the assignment is [bn_param[mode] = mode],
    not [bn_param['mode'] = mode]. *)
Theorem bn_mode_stays_train_in_test_mode :
  Examples.make [3] (1 # 2) true = Ok (Examples.net_full, 2) ∧
  FullyConnectedNet.bn_params Examples.net_full =
    [ {["mode" := PStr "train"]} ] ∧
  FullyConnectedNet.bn_params
    (self_of (FullyConnectedNet.loss Examples.X None Examples.net_full)) =
    [ <["test" := PStr "test"]> {["mode" := PStr "train"]} ] ∧
  (λ bn : dict, bn !! "mode") <$>
    FullyConnectedNet.bn_params
      (self_of (FullyConnectedNet.loss Examples.X None Examples.net_full)) =
    [Some (PStr "train")].
Proof.
  split; [exact make_full|]. split; [reflexivity|].
  rewrite bn_mode_kept_in_test, loss_self, bn_params_set_modes.
  split; reflexivity.
Qed.

Lemma loss_deterministic_witness :
  outcome_of (FullyConnectedNet.loss Examples.X (Some Examples.y)
                Examples.net_full) =
  outcome_of (FullyConnectedNet.loss Examples.X (Some Examples.y)
                (self_of (FullyConnectedNet.loss Examples.X (Some Examples.y)
                            Examples.net_full))).
Proof. apply loss_deterministic, same_model_loss. Defined.

Lemma loss_writes_dropout_mode_witness :
  FullyConnectedNet.use_dropout Examples.net_plain = false ∧
  ∃ d, FullyConnectedNet.dropout_param Examples.net_plain = Some d ∧
       FullyConnectedNet.dropout_param
         (self_of (FullyConnectedNet.loss Examples.X None Examples.net_plain)) =
         Some (<["mode" := PStr "test"]> d) ∧
       <["mode" := PStr "test"]> d !! "mode" = Some (PStr "test").
Proof.
  split; [reflexivity|].
  exact (loss_writes_dropout_mode Examples.net_plain Examples.X None
           reachable_plain).
Defined.

Lemma loss_grads_regularized_witness :
  (∃ l grads,
     outcome_of (FullyConnectedNet.loss Examples.X (Some Examples.y)
                   Examples.net_full) = Ok (LossGrads l grads) ∧
     ∃ ls scores cs softmax dscores dx gs,
       layers_of (FullyConnectedNet.params Examples.net_full) 2 = Some ls ∧
       Z.of_nat (length ls) = 2 ∧
       forward_spec (astype Examples.X "float64") ls = Ok (scores, cs) ∧
       softmax_loss scores Examples.y = Ok (softmax, dscores) ∧
       backward_spec dscores cs = Ok (dx, gs) ∧
       grads_spec (Symbolic.TLit (1 # 10)) ls gs grads) ∧
  (∃ l grads,
     outcome_of (TwoLayerNet.loss Examples.X (Some Examples.y) Examples.net2) =
       Ok (LossGrads l grads) ∧
     ∃ ls scores cs softmax dscores dx gs,
       layers_of (TwoLayerNet.params Examples.net2) 2 = Some ls ∧
       forward_spec Examples.X ls = Ok (scores, cs) ∧
       softmax_loss scores Examples.y = Ok (softmax, dscores) ∧
       backward_spec dscores cs = Ok (dx, gs) ∧
       grads_spec (Symbolic.TLit (1 # 10)) ls gs grads).
Proof.
  destruct (loss_grads_regularized (B := Symbolic.backend)) as [Hfc Htl].
  split.
  - destruct (returned_grads_inv _ train_full_returns) as (l & grads & Hr).
    exists l, grads. split; [exact Hr|]. exact (Hfc _ _ _ _ _ Hr).
  - destruct (returned_grads_inv _ train_net2_returns) as (l & grads & Hr).
    exists l, grads. split; [exact Hr|]. exact (Htl _ _ _ _ _ Hr).
Defined.

Lemma loss_value_regularized_witness :
  (∃ l grads,
     outcome_of (FullyConnectedNet.loss Examples.X (Some Examples.y)
                   Examples.net_full) = Ok (LossGrads l grads) ∧
     ∃ ls scores cs softmax dscores norms,
       layers_of (FullyConnectedNet.params Examples.net_full) 2 = Some ls ∧
       forward_spec (astype Examples.X "float64") ls = Ok (scores, cs) ∧
       softmax_loss scores Examples.y = Ok (softmax, dscores) ∧
       norms_spec ls norms ∧
       l = s_add softmax
             (s_mul (s_mul s_half (Symbolic.TLit (1 # 10))) (np_sum norms))) ∧
  (∃ l grads,
     outcome_of (TwoLayerNet.loss Examples.X (Some Examples.y) Examples.net2) =
       Ok (LossGrads l grads) ∧
     ∃ ls scores cs softmax dscores n1 n2,
       layers_of (TwoLayerNet.params Examples.net2) 2 = Some ls ∧
       forward_spec Examples.X ls = Ok (scores, cs) ∧
       softmax_loss scores Examples.y = Ok (softmax, dscores) ∧
       norms_spec ls [n1; n2] ∧
       l = s_add softmax
             (s_mul (s_mul (Symbolic.TLit (1 # 10)) s_half) (s_add n1 n2))).
Proof.
  destruct (loss_value_regularized (B := Symbolic.backend)) as [Hfc Htl].
  split.
  - destruct (returned_grads_inv _ train_full_returns) as (l & grads & Hr).
    exists l, grads. split; [exact Hr|]. exact (Hfc _ _ _ _ _ Hr).
  - destruct (returned_grads_inv _ train_net2_returns) as (l & grads & Hr).
    exists l, grads. split; [exact Hr|]. exact (Htl _ _ _ _ _ Hr).
Defined.

Lemma loss_inference_witness :
  (well_shaped [4; 3; 2] Examples.net_full = true ∧
   ∃ scores,
     outcome_of (FullyConnectedNet.loss Examples.X None Examples.net_full) =
       Ok (Scores (Some scores)) ∧
     shape scores = [5; 2] ∧
     fn <$> calls_of (FullyConnectedNet.loss Examples.X None Examples.net_full) =
       ["affine_relu_forward"; "affine_forward"]) ∧
  (well_shaped2 4 3 2 Examples.net2 = true ∧
   ∃ scores,
     outcome_of (TwoLayerNet.loss Examples.X None Examples.net2) =
       Ok (Scores (Some scores)) ∧
     shape scores = [5; 2]).
Proof.
  destruct (loss_inference (B := Symbolic.backend)) as (Hfc & Htl & _).
  assert (well_shaped [4; 3; 2] Examples.net_full = true) as Hwf
    by (vm_compute; reflexivity).
  assert (well_shaped2 4 3 2 Examples.net2 = true) as Hwf2
    by (vm_compute; reflexivity).
  split; (split; [done|]).
  - destruct (Hfc Examples.X Examples.net_full [4; 3; 2] 5 [2; 2] 4 Hwf
                eq_refl eq_refl eq_refl eq_refl)
      as (scores & C & Hrun & Hlast & Hshape & Hcalls & _).
    injection Hlast as <-. exists scores. by split_and!.
  - destruct (Htl Examples.X Examples.net2 4 3 2 5 [2; 2] Hwf2
                eq_refl eq_refl eq_refl)
      as (scores & Hrun & Hshape & _).
    by exists scores.
Defined.

Lemma loss_invokes_affine_relu_only_witness :
  Forall (λ c, fn c ∈ layer_primitives ∧ ¬ takes_dict c)
         (calls_of (FullyConnectedNet.loss Examples.X (Some Examples.y)
                      Examples.net_full)) ∧
  fn <$> calls_of (FullyConnectedNet.loss Examples.X (Some Examples.y)
                     Examples.net_full) =
    ["affine_relu_forward"; "affine_forward"; "softmax_loss";
     "affine_backward"; "affine_relu_backward"].
Proof.
  destruct (loss_invokes_affine_relu_only (B := Symbolic.backend)
              Examples.net_full Examples.X (Some Examples.y) reachable_full)
    as (Hall & _ & Hnames).
  split; [exact Hall|].
  destruct (returned_grads_inv _ train_full_returns) as (l & grads & Hr).
  exact (Hnames _ Hr).
Defined.

(** C2.  On the network built with [dropout=0.5] and [use_batchnorm=True], a
    call to [loss] with labels runs the five affine, ReLU and softmax
    primitives and nothing else, and hands [dropout_param] or a [bn_params]
    entry to none of them: the batch-normalization and dropout layers that
    the class docstring places in every hidden block,
    [{affine - [batch norm] - relu - [dropout]} x (L - 1)], and whose
    dictionaries the constructor prepares, are never invoked. *)
Theorem collaborators_not_invoked :
  Examples.make [3] (1 # 2) true = Ok (Examples.net_full, 2) ∧
  FullyConnectedNet.use_dropout Examples.net_full = true ∧
  FullyConnectedNet.use_batchnorm Examples.net_full = true ∧
  fn <$> calls_of (FullyConnectedNet.loss Examples.X (Some Examples.y)
                     Examples.net_full) =
    ["affine_relu_forward"; "affine_forward"; "softmax_loss";
     "affine_backward"; "affine_relu_backward"] ∧
  ¬ ∃ c, c ∈ calls_of (FullyConnectedNet.loss Examples.X (Some Examples.y)
                         Examples.net_full) ∧
         takes_param_dict
           (self_of (FullyConnectedNet.loss Examples.X (Some Examples.y)
                       Examples.net_full)) c.
Proof.
  split; [exact make_full|]. split; [reflexivity|]. split; [reflexivity|].
  split.
  - destruct (returned_grads_inv _ train_full_returns) as (l & grads & Hr).
    eapply loss_call_names; [|exact Hr]. cbn. lia.
  - intros (c & Hc & d & Hd & _).
    pose proof (loss_calls_no_dict (B := Symbolic.backend) Examples.X
                  (Some Examples.y) Examples.net_full) as Hall.
    rewrite Forall_forall in Hall. destruct (Hall c Hc) as [_ Hno].
    apply Hno. by exists d.
Qed.


(** * Further properties of the two classes *)

(** ** The forward loop computes the forward pass, exceptions included *)

Section ForwardExact.
Context `{B : Backend}.
Import FullyConnectedNet.

(** With the layers' parameters in the dictionary, the loop over layers
    [i .. num_layers] ends as the forward pass of the specification does:
    with its scores and caches, or with the exception of the first primitive
    that raised. *)
Lemma forward_loop_exact (n : nat) i output scores cache_list self ls :
  i + Z.of_nat n = num_layers self + 1 → (1 ≤ n)%nat →
  mapM (layer_param (params self)) (seqZ i (Z.of_nat n)) = Some ls →
  match forward_spec output ls with
  | Ok (sc, cs) =>
      ∃ out, outcome_of (m_for forward_layer (seqZ i (Z.of_nat n))
                           (output, scores, cache_list) self) =
             Ok (out, Some sc, cache_list ++ cs)
  | Raise e =>
      outcome_of (m_for forward_layer (seqZ i (Z.of_nat n))
                    (output, scores, cache_list) self) = Raise e
  end.
Proof.
  revert i output scores cache_list ls.
  induction n as [|n IH]; intros i output scores cache_list ls Hi Hn Hls; [lia|].
  rewrite seqZ_cons in Hls |- * by lia.
  replace (Z.pred (Z.of_nat (S n))) with (Z.of_nat n) in * by lia.
  cbn [mapM] in Hls.
  destruct (layer_param (params self) i) as [[W b]|] eqn:Hp; [|done].
  cbn in Hls.
  destruct (mapM (layer_param (params self)) (seqZ (Z.succ i) (Z.of_nat n)))
    as [ls'|] eqn:Hls'; [|done].
  cbn in Hls. injection Hls as <-.
  apply layer_param_inv in Hp as [HW Hb].
  cbn [m_for]. unfold m_bind.
  rewrite (forward_layer_run _ _ _ _ _ W b HW Hb).
  destruct n as [|n].
  - rewrite seqZ_nil in Hls' by lia. injection Hls' as <-.
    replace (i =? num_layers self) with true by lia. cbn.
    destruct (affine_forward output W b) as [[o c]|e]; cbn; [|done].
    rewrite seqZ_nil by lia. cbn. eauto.
  - replace (i =? num_layers self) with false by lia. cbn [negb].
    assert (∃ l ls'', ls' = l :: ls'') as (l & ls'' & ->).
    { apply length_mapM in Hls'. rewrite length_seqZ in Hls'.
      destruct ls'; [simpl in Hls'; lia|eauto]. }
    rewrite forward_spec_hidden.
    destruct (affine_relu_forward output W b) as [[o c]|e];
      cbn [mbind outcome_bind outcome_of self_of calls_of]; [|done].
    specialize (IH (Z.succ i) o scores (cache_list ++ [c]) (l :: ls'')
                   ltac:(lia) ltac:(lia) Hls').
    destruct (forward_spec o (l :: ls'')) as [[sc cs]|e];
      cbn [mbind outcome_bind]; cbv beta iota in IH.
    + destruct IH as [out Hout]. rewrite Hout. cbn [outcome_of].
      exists out. by rewrite <- app_assoc.
    + by rewrite IH.
Qed.

End ForwardExact.

(** ** Calls without labels: the scores, or the first exception *)

Section InferenceExact.
Context `{B : Backend}.
Import FullyConnectedNet.

Lemma forward_layer_missing st index self :
  params self !! fstr "W" index = None ∨
  (is_Some (params self !! fstr "W" index) ∧
   params self !! fstr "b" index = None) →
  forward_layer st index self = Run (Raise KeyError) self [].
Proof.
  destruct st as [[output scores] cache_list].
  unfold forward_layer, get_param, m_bind, m_get, m_lift, m_call, py_getitem.
  cbn. intros [HW|[[W HW] Hb]]; destruct (negb _); cbn; rewrite HW; cbn;
    try done; by rewrite Hb.
Qed.

(** The outcome of a call without labels, with every layer's parameters in
    the dictionary. *)
Lemma loss_test_outcome X (self : t) ls :
  1 ≤ num_layers self →
  layers_of (params self) (num_layers self) = Some ls →
  outcome_of (loss X None self) =
    match forward_spec (astype X (dtype self)) ls with
    | Ok (scores, _) => Ok (Scores (Some scores))
    | Raise e => Raise e
    end.
Proof.
  intros HL Hls.
  destruct (loss_unfold X None self) as (-> & _ & _). cbn [mode_of].
  destruct (loss_passes_test (astype X (dtype self)) None (set_modes None self))
    as [-> _].
  destruct (attrs_set_modes None self) as (_ & Hnl & _).
  unfold layers_of, py_range in *. rewrite Hnl.
  set (n := Z.to_nat (num_layers self)).
  replace (num_layers self + 1 - 1) with (Z.of_nat n) in * by lia.
  pose proof (forward_loop_exact n 1 (astype X (dtype self)) None []
                (set_modes None self) ls) as Hrun.
  rewrite Hnl, params_set_modes in Hrun.
  specialize (Hrun ltac:(lia) ltac:(lia) Hls).
  destruct (forward_spec (astype X (dtype self)) ls) as [[sc cs]|e].
  - destruct Hrun as [out ->]. done.
  - by rewrite Hrun.
Qed.

(** X1.  With every layer's parameters in the dictionary, a call without
    labels returns the scores of the specification's forward pass on the cast
    input, or raises the exception of the first primitive that raised; when
    it returns it has called one forward primitive per layer. *)
Theorem loss_inference_exact X (self : t) ls :
  1 ≤ num_layers self →
  layers_of (params self) (num_layers self) = Some ls →
  outcome_of (loss X None self) =
    match forward_spec (astype X (dtype self)) ls with
    | Ok (scores, _) => Ok (Scores (Some scores))
    | Raise e => Raise e
    end ∧
  (returns (forward_spec (astype X (dtype self)) ls) →
   fn <$> calls_of (loss X None self) = forward_calls (num_layers self)).
Proof.
  intros HL Hls. split; [by apply loss_test_outcome|].
  intros [[sc cs] Hf].
  destruct (loss_unfold X None self) as (_ & _ & ->). cbn [mode_of].
  destruct (loss_passes_test (astype X (dtype self)) None (set_modes None self))
    as [_ ->].
  destruct (attrs_set_modes None self) as (_ & Hnl & _).
  unfold layers_of, py_range in *. rewrite Hnl.
  set (n := Z.to_nat (num_layers self)).
  replace (num_layers self + 1 - 1) with (Z.of_nat n) in * by lia.
  pose proof (forward_loop_exact n 1 (astype X (dtype self)) None []
                (set_modes None self) ls) as Hrun.
  rewrite Hnl, params_set_modes, Hf in Hrun.
  destruct (Hrun ltac:(lia) ltac:(lia) Hls) as [out Hloop].
  destruct (forward_loop_ok n 1 _ None [] (set_modes None self) _
              ltac:(rewrite Hnl; lia) ltac:(lia) Hloop)
    as (_ & _ & _ & _ & _ & _ & _ & ->).
  unfold forward_calls. f_equal. f_equal. lia.
Qed.

(** X2.  When the dictionary lacks [W1], or holds [W1] but lacks [b1], a call
    to [loss] raises [KeyError] before it calls any layer primitive, with or
    without labels. *)
Theorem loss_missing_first_layer X y (self : t) :
  1 ≤ num_layers self →
  params self !! "W1" = None ∨
  (is_Some (params self !! "W1") ∧ params self !! "b1" = None) →
  outcome_of (loss X y self) = Raise KeyError ∧
  calls_of (loss X y self) = [].
Proof.
  intros HL Hmiss.
  destruct (loss_unfold X y self) as (-> & _ & ->).
  destruct (attrs_set_modes y self) as (_ & Hnl & _).
  unfold loss_passes, py_range. 
  rewrite (bind_ok_run _ _ _ (set_modes y self)) by done.
  cbn [m_get outcome_of self_of calls_of app]. rewrite Hnl.
  rewrite seqZ_cons by lia. cbn [m_for].
  assert (forward_layer (astype X (dtype self), None, []) 1 (set_modes y self)
          = Run (Raise KeyError) (set_modes y self) []) as Hfirst.
  { apply forward_layer_missing. by rewrite params_set_modes. }
  set (rest := m_for forward_layer _).
  destruct (bind_raise (forward_layer (astype X (dtype self), None, []) 1)
              rest (set_modes y self) KeyError) as (Ho & _ & Hc);
    [by rewrite Hfirst|].
  rewrite Hfirst in Hc. cbn [calls_of] in Hc.
  match goal with
  | |- outcome_of (m_bind ?m ?k ?s) = _ ∧ _ =>
      destruct (bind_raise m k s KeyError Ho) as (-> & _ & ->)
  end.
  done.
Qed.

End InferenceExact.

(** ** Calls with labels: exceptions of the loss, and the scores behind it *)

Section TrainingExact.
Context `{B : Backend}.
Import FullyConnectedNet.

(** X3.  When the forward pass returns scores and [softmax_loss] raises on
    them (a label out of range, say), the call raises that exception; it has
    run the forward primitives and [softmax_loss], and no backward
    primitive. *)
Theorem loss_softmax_raises X y (self : t) ls scores cs e :
  1 ≤ num_layers self →
  layers_of (params self) (num_layers self) = Some ls →
  forward_spec (astype X (dtype self)) ls = Ok (scores, cs) →
  softmax_loss scores y = Raise e →
  outcome_of (loss X (Some y) self) = Raise e ∧
  fn <$> calls_of (loss X (Some y) self) =
    forward_calls (num_layers self) ++ ["softmax_loss"].
Proof.
  intros HL Hls Hf Hsm.
  destruct (loss_unfold X (Some y) self) as (-> & _ & ->). cbn [mode_of].
  destruct (attrs_set_modes (Some y) self) as (_ & Hnl & _).
  unfold loss_passes, layers_of, py_range in *.
  rewrite (bind_ok_run _ _ _ (set_modes (Some y) self)) by done.
  cbn [m_get outcome_of self_of calls_of app]. rewrite Hnl.
  set (n := Z.to_nat (num_layers self)).
  replace (num_layers self + 1 - 1) with (Z.of_nat n) in * by lia.
  pose proof (forward_loop_exact n 1 (astype X (dtype self)) None []
                (set_modes (Some y) self) ls) as Hrun.
  rewrite Hnl, params_set_modes, Hf in Hrun.
  destruct (Hrun ltac:(lia) ltac:(lia) Hls) as [out Hloop]. clear Hrun.
  destruct (forward_loop_ok n 1 _ None [] (set_modes (Some y) self) _
              ltac:(rewrite Hnl; lia) ltac:(lia) Hloop)
    as (_ & _ & _ & _ & _ & _ & _ & Hnames).
  rewrite (bind_ok_run _ _ _ _ Hloop).
  cbn [outcome_of self_of calls_of String.eqb Ascii.eqb Bool.eqb].
  rewrite m_for_self by apply forward_layer_self.
  match goal with
  | |- outcome_of (m_bind ?m ?k ?s) = _ ∧ _ =>
      destruct (bind_raise m k s e) as (-> & _ & ->)
  end.
  { cbn. done. }
  split; [done|]. rewrite fmap_app, Hnames. cbn.
  unfold forward_calls. subst n.
  by replace (Z.to_nat (num_layers self) - 1)%nat
    with (Z.to_nat (num_layers self - 1)) by lia.
Qed.

(** X4.  The loss a call with labels returns is computed from exactly the
    scores that a call without labels returns on the same input. *)
Theorem loss_train_uses_inference_scores X y (self : t) l grads :
  outcome_of (loss X (Some y) self) = Ok (LossGrads l grads) →
  ∃ scores softmax dscores ls norms,
    outcome_of (loss X None self) = Ok (Scores (Some scores)) ∧
    softmax_loss scores y = Ok (softmax, dscores) ∧
    layers_of (params self) (num_layers self) = Some ls ∧
    norms_spec ls norms ∧
    l = s_add softmax (s_mul (s_mul s_half (reg self)) (np_sum norms)).
Proof.
  intros Hr.
  apply loss_train_ok in Hr
    as (ls & scores & cs & softmax & dscores & norms & dx & gs & grads' &
        Hls & Hlen & Hf & Hsm & Hn & _ & [= -> ->] & _).
  exists scores, softmax, dscores, ls, norms. split_and!; try done.
  rewrite (loss_test_outcome X self ls); [by rewrite Hf| |done].
  destruct ls; [done|]. simpl in Hlen. lia.
Qed.

End TrainingExact.

(** ** What [loss] writes to [self], and what it leaves alone *)

Section Modes.
Context `{B : Backend}.
Import FullyConnectedNet.

Lemma dropout_param_set_modes y self :
  dropout_param (set_modes y self) =
    (λ d : dict, <["mode" := PStr (mode_of y)]> d) <$> dropout_param self.
Proof.
  unfold set_modes. destruct (dropout_param self) eqn:Hd; simpl;
    destruct (use_batchnorm self); simpl; by rewrite ?Hd.
Qed.

Lemma mode_of_not_mode (y : option labels) : mode_of y ≠ "mode".
Proof. by destruct y. Qed.

(** X5.  Whatever its outcome, a call to [loss] leaves every attribute of
    [self] but [dropout_param] and [bn_params] as it was, keeps the number of
    [bn_params] entries, and changes no entry of [dropout_param] other than
    ["mode"] (the probability and the seed stay) and no entry of a
    [bn_params] dictionary other than the one named after the mode. *)
Theorem loss_frame X y (self : t) :
  let self' := self_of (loss X y self) in
  use_batchnorm self' = use_batchnorm self ∧
  use_dropout self' = use_dropout self ∧
  reg self' = reg self ∧
  num_layers self' = num_layers self ∧
  dtype self' = dtype self ∧
  params self' = params self ∧
  length (bn_params self') = length (bn_params self) ∧
  (∀ k, k ≠ "mode" →
        (λ d : dict, d !! k) <$> dropout_param self' =
        (λ d : dict, d !! k) <$> dropout_param self) ∧
  (∀ k, k ≠ mode_of y →
        (λ bn : dict, bn !! k) <$> bn_params self' =
        (λ bn : dict, bn !! k) <$> bn_params self).
Proof.
  cbv zeta. rewrite loss_self.
  destruct (attrs_set_modes y self) as (Hreg & Hnl & Hdt & Hub & Hud).
  split_and!; try done.
  - apply params_set_modes.
  - rewrite bn_params_set_modes. destruct (use_batchnorm self); [|done].
    by rewrite length_fmap.
  - intros k Hk. rewrite dropout_param_set_modes.
    destruct (dropout_param self) as [d|]; [|done]. cbn.
    by rewrite lookup_insert_ne.
  - intros k Hk. rewrite bn_params_set_modes.
    destruct (use_batchnorm self); [|done].
    rewrite <- list_fmap_compose. apply list_fmap_ext. intros i bn _. cbn.
    by rewrite lookup_insert_ne.
Qed.

Lemma init_bn_params hidden_dims input_dim num_classes dropout ub
    reg0 weight_scale dtype0 seed g self g' :
  __init__ hidden_dims input_dim num_classes dropout ub reg0 weight_scale
    dtype0 seed g = Ok (self, g') →
  bn_params self =
    if ub then replicate (length hidden_dims) {["mode" := PStr "train"]}
    else [].
Proof.
  unfold __init__. intros H.
  destruct (for_each _ _ _) as [[ps g1]|e]; simpl in H; [|done].
  injection H as <- <-. simpl. destruct ub; [|done].
  unfold py_range.
  replace (1 + Z.of_nat (length hidden_dims) - 1 - 0)
    with (Z.of_nat (length hidden_dims)) by lia.
  generalize 0. induction (length hidden_dims) as [|n IH]; intros i.
  - by rewrite seqZ_nil.
  - rewrite seqZ_cons by lia.
    replace (Z.pred (Z.of_nat (S n))) with (Z.of_nat n) by lia.
    cbn. f_equal. apply IH.
Qed.

(** X6.  On every network object a program can hold, every [bn_params] entry
    has ["train"] under ["mode"], however many calls with and without labels
    were made; with batch normalization enabled there is one entry per hidden
    layer. *)
Theorem bn_mode_always_train (self : t) :
  reachable self →
  Forall (λ bn : dict, bn !! "mode" = Some (PStr "train")) (bn_params self) ∧
  (use_batchnorm self = true →
   Z.of_nat (length (bn_params self)) = num_layers self - 1).
Proof.
  induction 1 as [|self X y _ [IH1 IH2]].
  - match goal with
    | H : __init__ _ _ _ _ _ _ _ _ _ _ = _ |- _ =>
        pose proof (init_bn_params _ _ _ _ _ _ _ _ _ _ _ _ H) as Hbn;
        apply init_num_layers in H as (HL & _ & Hub)
    end.
    rewrite Hbn, HL, Hub.
    match goal with
    | |- context [if ?b then _ else _] => destruct b
    end; split; try done.
    + apply Forall_replicate. apply lookup_singleton_eq.
    + intros _. rewrite length_replicate. lia.
  - rewrite loss_self, bn_params_set_modes.
    destruct (attrs_set_modes y self) as (_ & -> & _ & -> & _).
    destruct (use_batchnorm self); [|done]. split.
    + rewrite Forall_fmap. eapply Forall_impl; [exact IH1|].
      intros bn Hbn. cbn. rewrite lookup_insert_ne; [done|].
      apply mode_of_not_mode.
    + intros _. rewrite length_fmap. by apply IH2.
Qed.

Lemma set_modes_idemp y1 y2 self :
  mode_of y1 = mode_of y2 →
  set_modes y2 (set_modes y1 self) = set_modes y1 self.
Proof.
  intros Hm. destruct self as [ub ud r L dt ps dp bn].
  unfold set_modes. rewrite <- Hm.
  assert (∀ l : list dict,
            (λ bn_param : dict, <[mode_of y1 := PStr (mode_of y1)]> bn_param) <$>
              ((λ bn_param : dict, <[mode_of y1 := PStr (mode_of y1)]> bn_param)
                 <$> l) =
            (λ bn_param : dict, <[mode_of y1 := PStr (mode_of y1)]> bn_param)
              <$> l) as Hbn.
  { intros l. rewrite <- list_fmap_compose. apply list_fmap_ext.
    intros i x _. cbn. by rewrite insert_insert_eq. }
  destruct dp as [d|], ub; cbn; rewrite ?Hbn, ?insert_insert_eq; done.
Qed.

(** X7.  A second call in the same mode (both with labels, or both without)
    leaves [self] exactly as the first call left it; and after any two calls
    the ["mode"] entry of [dropout_param] is the mode of the later one. *)
Theorem loss_modes_last_call_wins X1 X2 y1 y2 (self : t) :
  (mode_of y1 = mode_of y2 →
   self_of (loss X2 y2 (self_of (loss X1 y1 self))) =
   self_of (loss X1 y1 self)) ∧
  (λ d : dict, d !! "mode") <$>
     dropout_param (self_of (loss X2 y2 (self_of (loss X1 y1 self)))) =
  (λ _, Some (PStr (mode_of y2))) <$> dropout_param self.
Proof.
  rewrite !loss_self. split.
  - apply set_modes_idemp.
  - rewrite !dropout_param_set_modes. destruct (dropout_param self); [|done].
    cbn. by rewrite lookup_insert_eq.
Qed.

End Modes.

(** ** What the constructors build *)

Section ConstructorShapes.
Context `{B : Backend} `{!BackendLaws B} `{!AllocLaws B}.
Import FullyConnectedNet.

Lemma py_index_ok_inv {A} (l : list A) (i : Z) x :
  py_index l i = Ok x → 0 ≤ i → l !! Z.to_nat i = Some x.
Proof.
  unfold py_index. cbv zeta. intros H Hi.
  assert ((i <? 0) = false) as Hlt by (apply Z.ltb_ge; lia).
  rewrite Hlt in H. cbv iota in H. rewrite Hlt in H. cbn [orb] in H.
  destruct (Z.of_nat (length l) <=? i); [done|].
  destruct (l !! Z.to_nat i); [|done]. by injection H as ->.
Qed.

(** One iteration of the initialisation loop that returns. *)
Lemma init_layer_ok hidden_dims input_dim num_classes weight_scale st index
    ps g :
  1 ≤ index ≤ 1 + Z.of_nat (length hidden_dims) →
  init_layer hidden_dims input_dim num_classes weight_scale
    (1 + Z.of_nat (length hidden_dims)) st index = Ok (ps, g) →
  ∃ W b din dout,
    (input_dim :: hidden_dims ++ [num_classes]) !! Z.to_nat (index - 1)
      = Some din ∧
    (input_dim :: hidden_dims ++ [num_classes]) !! Z.to_nat index = Some dout ∧
    shape W = [din; dout] ∧ shape b = [dout] ∧
    ps = <[fstr "b" index := b]> (<[fstr "W" index := W]> st.1).
Proof.
  intros Hindex. unfold init_layer.
  set (dims := input_dim :: hidden_dims ++ [num_classes]).
  assert (∀ k x, 1 ≤ k → py_index hidden_dims (k - 1) = Ok x →
            dims !! Z.to_nat k = Some x) as Hhd.
  { intros k x Hk Hx. apply py_index_ok_inv in Hx; [|lia].
    subst dims. replace (Z.to_nat k) with (S (Z.to_nat (k - 1))) by lia.
    change ((hidden_dims ++ [num_classes]) !! Z.to_nat (k - 1) = Some x).
    by apply lookup_app_l_Some. }
  assert (dims !! Z.to_nat (1 + Z.of_nat (length hidden_dims))
          = Some num_classes) as Hlast.
  { subst dims.
    replace (Z.to_nat (1 + Z.of_nat (length hidden_dims)))
      with (S (length hidden_dims + 0)) by lia.
    change ((hidden_dims ++ [num_classes]) !! (length hidden_dims + 0)%nat
            = Some num_classes).
    rewrite lookup_app_r by lia.
    by replace (length hidden_dims + 0 - length hidden_dims)%nat with 0%nat
      by lia. }
  destruct (init_weight _ _ _ _ _ _ _) as [[W g1]|] eqn:HW; [|done]. cbn.
  destruct (init_bias _ _ _ _) as [b|] eqn:Hb; [|done]. cbn.
  intros [= <- <-]. unfold init_weight in HW. unfold init_bias in Hb.
  assert (∃ dout, dims !! Z.to_nat index = Some dout ∧ shape b = [dout])
    as (dout & Hdout & Hsb).
  { destruct (Z.eqb_spec index (1 + Z.of_nat (length hidden_dims))) as [->|].
    - exists num_classes. split; [done|]. by eapply shape_np_zeros.
    - destruct (py_index hidden_dims (index - 1)) as [h|] eqn:Hh; [|done].
      cbn in Hb. exists h. split; [apply Hhd; [lia|done]|].
      by eapply shape_np_zeros. }
  exists W, b.
  destruct (Z.eqb_spec index 1) as [->|Hn1].
  - destruct (py_index hidden_dims (1 - 1)) as [h|] eqn:Hh; [|done].
    cbn in HW. apply shape_np_random_normal in HW.
    exists input_dim, dout. split_and!; try done.
    rewrite (Hhd 1 h) in Hdout by (done || lia). by injection Hdout as <-.
  - destruct (Z.eqb_spec index (1 + Z.of_nat (length hidden_dims))) as [->|].
    + destruct (py_index hidden_dims (1 + Z.of_nat (length hidden_dims) - 2))
        as [h|] eqn:Hh; [|done].
      cbn in HW. apply shape_np_random_normal in HW.
      exists h, dout. split_and!; try done.
      * replace (1 + Z.of_nat (length hidden_dims) - 1)
          with (Z.of_nat (length hidden_dims)) by lia.
        apply (Hhd (Z.of_nat (length hidden_dims)) h); [lia|].
        rewrite <- Hh. f_equal. lia.
      * rewrite Hlast in Hdout. by injection Hdout as <-.
    + destruct (py_index hidden_dims (index - 2)) as [h1|] eqn:Hh1; [|done].
      cbn in HW.
      destruct (py_index hidden_dims (index - 1)) as [h2|] eqn:Hh2; [|done].
      cbn in HW. apply shape_np_random_normal in HW.
      exists h1, dout. split_and!; try done.
      * apply (Hhd (index - 1) h1); [lia|]. rewrite <- Hh1. f_equal. lia.
      * rewrite (Hhd index h2) in Hdout by (done || lia).
        by injection Hdout as <-.
Qed.

End ConstructorShapes.

Section ConstructorLoop.
Context `{B : Backend} `{!BackendLaws B} `{!AllocLaws B}.
Import FullyConnectedNet.

(** The initialisation loop over layers [i .. L], when it returns: it left
    every other key alone, and under the keys of each of its layers lie a
    weight and a bias of the shapes the widths prescribe. *)
Lemma init_loop_ok (n : nat) hidden_dims input_dim num_classes weight_scale
    i st ps g :
  i + Z.of_nat n = 1 + Z.of_nat (length hidden_dims) + 1 → 1 ≤ i →
  for_each (init_layer hidden_dims input_dim num_classes weight_scale
              (1 + Z.of_nat (length hidden_dims)))
           (seqZ i (Z.of_nat n)) st = Ok (ps, g) →
  (∀ key, (∀ j, i ≤ j ≤ 1 + Z.of_nat (length hidden_dims) →
                key ≠ fstr "W" j ∧ key ≠ fstr "b" j) →
          ps !! key = st.1 !! key) ∧
  (∀ j, i ≤ j ≤ 1 + Z.of_nat (length hidden_dims) →
     ∃ W b din dout,
       (input_dim :: hidden_dims ++ [num_classes]) !! Z.to_nat (j - 1)
         = Some din ∧
       (input_dim :: hidden_dims ++ [num_classes]) !! Z.to_nat j = Some dout ∧
       ps !! fstr "W" j = Some W ∧ ps !! fstr "b" j = Some b ∧
       shape W = [din; dout] ∧ shape b = [dout]).
Proof.
  revert i st. induction n as [|n IH]; intros i st Hi Hi1 Hrun.
  { rewrite seqZ_nil in Hrun by lia. cbn in Hrun. injection Hrun as ->.
    split; [done|]. intros j Hj. lia. }
  rewrite seqZ_cons in Hrun by lia.
  replace (Z.pred (Z.of_nat (S n))) with (Z.of_nat n) in Hrun by lia.
  cbn [for_each] in Hrun.
  destruct (init_layer _ _ _ _ _ st i) as [[ps1 g1]|] eqn:Hstep; [|done].
  cbn in Hrun.
  apply init_layer_ok in Hstep
    as (W & b & din & dout & Hdin & Hdout & HsW & Hsb & ->); [|lia].
  destruct (IH (Z.succ i) _ ltac:(lia) ltac:(lia) Hrun) as [Hframe Hlook].
  cbn [fst] in Hframe. split.
  - intros key Hkey. rewrite Hframe by (intros j Hj; apply Hkey; lia).
    destruct (Hkey i) as [HkW Hkb]; [lia|].
    by rewrite !lookup_insert_ne.
  - intros j Hj. destruct (decide (j = i)) as [->|Hne].
    + exists W, b, din, dout. split_and!; try done.
      * rewrite Hframe.
        -- rewrite lookup_insert_ne by (symmetry; apply fstr_W_b).
           apply lookup_insert_eq.
        -- intros j Hj'. split; [intros ?%fstr_inj; lia | apply fstr_W_b].
      * rewrite Hframe; [apply lookup_insert_eq|].
        intros j Hj'. split; [symmetry; apply fstr_W_b|].
        intros ?%fstr_inj; lia.
    + apply Hlook. lia.
Qed.

Lemma layers_ok_intro (ps : gmap string array) i dims :
  (∀ (k : nat) din dout,
     dims !! k = Some din → dims !! S k = Some dout →
     layer_ok ps (i + Z.of_nat k) din dout = true) →
  layers_ok ps i dims = true.
Proof.
  revert i. induction dims as [|din dims IH]; intros i H; [done|].
  cbn [layers_ok]. destruct dims as [|dout rest]; [done|].
  apply andb_true_intro. split.
  - replace i with (i + Z.of_nat 0) by lia. by apply H.
  - apply IH. intros k d1 d2 Hd1 Hd2.
    replace (i + 1 + Z.of_nat k) with (i + Z.of_nat (S k)) by lia.
    by apply H.
Qed.

(** What the constructor built when it returns: the depth, the keys, the
    shapes, and the shapes once more as the test [layers_ok]. *)
Lemma init_shapes hidden_dims input_dim num_classes dropout ub
    reg0 weight_scale dtype0 seed g self g' :
  __init__ hidden_dims input_dim num_classes dropout ub reg0 weight_scale
    dtype0 seed g = Ok (self, g') →
  num_layers self = 1 + Z.of_nat (length hidden_dims) ∧
  dom (params self) = param_keys (num_layers self) ∧
  (∀ i, 1 ≤ i ≤ num_layers self →
     ∃ W b din dout,
       (input_dim :: hidden_dims ++ [num_classes]) !! Z.to_nat (i - 1)
         = Some din ∧
       (input_dim :: hidden_dims ++ [num_classes]) !! Z.to_nat i = Some dout ∧
       params self !! fstr "W" i = Some W ∧
       params self !! fstr "b" i = Some b ∧
       shape W = [din; dout] ∧ shape b = [dout]) ∧
  layers_ok (params self) 1 (input_dim :: hidden_dims ++ [num_classes]) = true.
Proof.
  unfold __init__, py_range. intros H.
  destruct (for_each _ _ _) as [[ps g1]|e] eqn:Hloop; simpl in H; [|done].
  injection H as <- <-. cbn [num_layers params].
  replace (1 + Z.of_nat (length hidden_dims) + 1 - 1)
    with (Z.of_nat (S (length hidden_dims))) in Hloop by lia.
  apply init_loop_ok in Hloop as [Hframe Hlook]; [|lia|lia].
  cbn [fst] in Hframe.
  assert (∀ i, 1 ≤ i ≤ 1 + Z.of_nat (length hidden_dims) →
     ∃ W b din dout,
       (input_dim :: hidden_dims ++ [num_classes]) !! Z.to_nat (i - 1)
         = Some din ∧
       (input_dim :: hidden_dims ++ [num_classes]) !! Z.to_nat i = Some dout ∧
       ((λ v, astype v dtype0) <$> ps) !! fstr "W" i = Some W ∧
       ((λ v, astype v dtype0) <$> ps) !! fstr "b" i = Some b ∧
       shape W = [din; dout] ∧ shape b = [dout]) as Hall.
  { intros i Hi.
    destruct (Hlook i Hi) as (W & b & din & dout & ? & ? & HW & Hb & ? & ?).
    exists (astype W dtype0), (astype b dtype0), din, dout.
    rewrite !lookup_fmap, HW, Hb, !shape_astype. by split_and!. }
  split_and!; try done.
  - apply set_eq. intros key.
    rewrite elem_of_dom, elem_of_param_keys, lookup_fmap, fmap_is_Some.
    split.
    + intros Hsome.
      destruct (decide (key ∈ param_keys (1 + Z.of_nat (length hidden_dims))))
        as [Hin|Hout]; [by apply elem_of_param_keys|].
      rewrite Hframe, lookup_empty in Hsome; [by destruct Hsome|].
      intros j Hj. split; intros ->; apply Hout, elem_of_param_keys; eauto.
    + intros (j & Hj & Hkey).
      destruct (Hlook j Hj) as (W & b & _ & _ & _ & _ & HW & Hb & _).
      destruct Hkey as [-> | ->]; eauto.
  - apply layers_ok_intro. intros k din dout Hdin Hdout.
    destruct (Hall (1 + Z.of_nat k)) as (W & b & din' & dout' & Hd1 & Hd2 &
                                         HW & Hb & HsW & Hsb).
    { pose proof (lookup_lt_Some _ _ _ Hdout) as Hlen.
      cbn in Hlen. rewrite length_app in Hlen. cbn in Hlen. lia. }
    replace (Z.to_nat (1 + Z.of_nat k - 1)) with k in Hd1 by lia.
    replace (Z.to_nat (1 + Z.of_nat k)) with (S k) in Hd2 by lia.
    unfold layer_ok. rewrite HW, Hb, HsW, Hsb.
    assert (din' = din) as -> by congruence.
    assert (dout' = dout) as -> by congruence.
    by rewrite !bool_decide_eq_true_2.
Qed.

(** X8.  When the constructor returns, the depth is one more than the number
    of hidden widths, the parameter dictionary has exactly the keys
    [W1 .. WL], [b1 .. bL], and for every layer [i] the weight [W_i] has shape
    [(dims[i-1], dims[i])] and the bias [b_i] shape [(dims[i],)], where
    [dims = input_dim :: hidden_dims ++ [num_classes]]. *)
Theorem init_parameter_shapes hidden_dims input_dim num_classes dropout ub
    reg0 weight_scale dtype0 seed g self g' :
  __init__ hidden_dims input_dim num_classes dropout ub reg0 weight_scale
    dtype0 seed g = Ok (self, g') →
  num_layers self = 1 + Z.of_nat (length hidden_dims) ∧
  dom (params self) = param_keys (num_layers self) ∧
  ∀ i, 1 ≤ i ≤ num_layers self →
    ∃ W b din dout,
      (input_dim :: hidden_dims ++ [num_classes]) !! Z.to_nat (i - 1)
        = Some din ∧
      (input_dim :: hidden_dims ++ [num_classes]) !! Z.to_nat i = Some dout ∧
      params self !! fstr "W" i = Some W ∧
      params self !! fstr "b" i = Some b ∧
      shape W = [din; dout] ∧ shape b = [dout].
Proof.
  intros Hinit.
  by destruct (init_shapes _ _ _ _ _ _ _ _ _ _ _ _ Hinit) as (? & ? & ? & _).
Qed.

End ConstructorLoop.

(** ** The constructor against its index-free description *)

Section ConstructorExact.
Context `{B : Backend}.
Import FullyConnectedNet.

Lemma mapM_option_cons {A C} (f : A → option C) x l :
  mapM f (x :: l) = (y ← f x; k ← mapM f l; Some (y :: k)).
Proof. done. Qed.

Lemma dims_lookup_hidden (hidden_dims : list Z) input_dim num_classes k :
  1 ≤ k ≤ Z.of_nat (length hidden_dims) →
  ∃ h, py_index hidden_dims (k - 1) = Ok h ∧
       (input_dim :: hidden_dims ++ [num_classes]) !! Z.to_nat k = Some h.
Proof.
  intros Hk.
  destruct (py_index_in_range hidden_dims (k - 1)) as (h & Hh & Hl); [lia|].
  exists h. split; [done|].
  replace (Z.to_nat k) with (S (Z.to_nat (k - 1))) by lia.
  change ((hidden_dims ++ [num_classes]) !! Z.to_nat (k - 1) = Some h).
  by apply lookup_app_l_Some.
Qed.

Lemma dims_lookup_last (hidden_dims : list Z) input_dim num_classes :
  (input_dim :: hidden_dims ++ [num_classes])
    !! Z.to_nat (1 + Z.of_nat (length hidden_dims)) = Some num_classes.
Proof.
  replace (Z.to_nat (1 + Z.of_nat (length hidden_dims)))
    with (S (length hidden_dims + 0)) by lia.
  change ((hidden_dims ++ [num_classes]) !! (length hidden_dims + 0)%nat
          = Some num_classes).
  rewrite lookup_app_r by lia.
  by replace (length hidden_dims + 0 - length hidden_dims)%nat with 0%nat
    by lia.
Qed.

(** With at least one hidden layer, the three branches of the loop body pick
    the widths [dims[index-1]] and [dims[index]]. *)
Lemma init_layer_exact hidden_dims input_dim num_classes weight_scale st
    index din dout :
  (1 ≤ length hidden_dims)%nat →
  1 ≤ index ≤ 1 + Z.of_nat (length hidden_dims) →
  (input_dim :: hidden_dims ++ [num_classes]) !! Z.to_nat (index - 1)
    = Some din →
  (input_dim :: hidden_dims ++ [num_classes]) !! Z.to_nat index = Some dout →
  init_layer hidden_dims input_dim num_classes weight_scale
    (1 + Z.of_nat (length hidden_dims)) st index =
  ('(W, g) ← np_random_normal weight_scale [din; dout] st.2;
   b ← np_zeros [dout];
   Ok (<[fstr "b" index := b]> (<[fstr "W" index := W]> st.1), g)).
Proof.
  intros Hlen Hindex Hdin Hdout. unfold init_layer.
  assert (init_weight hidden_dims input_dim num_classes weight_scale
            (1 + Z.of_nat (length hidden_dims)) index st.2
          = np_random_normal weight_scale [din; dout] st.2) as ->.
  { unfold init_weight.
    destruct (Z.eqb_spec index 1) as [->|Hn1].
    - destruct (dims_lookup_hidden hidden_dims input_dim num_classes 1)
        as (h & -> & Hh); [lia|].
      cbn in Hdin. injection Hdin as <-.
      rewrite Hh in Hdout. by injection Hdout as <-.
    - destruct (Z.eqb_spec index (1 + Z.of_nat (length hidden_dims)))
        as [->|HnL].
      + destruct (dims_lookup_hidden hidden_dims input_dim num_classes
                    (Z.of_nat (length hidden_dims))) as (h & Hpy & Hh); [lia|].
        replace (1 + Z.of_nat (length hidden_dims) - 2)
          with (Z.of_nat (length hidden_dims) - 1) by lia.
        rewrite Hpy.
        replace (1 + Z.of_nat (length hidden_dims) - 1)
          with (Z.of_nat (length hidden_dims)) in Hdin by lia.
        rewrite Hh in Hdin. injection Hdin as <-.
        rewrite dims_lookup_last in Hdout. by injection Hdout as <-.
      + destruct (dims_lookup_hidden hidden_dims input_dim num_classes
                    (index - 1)) as (h1 & Hpy1 & Hh1); [lia|].
        destruct (dims_lookup_hidden hidden_dims input_dim num_classes index)
          as (h2 & Hpy2 & Hh2); [lia|].
        replace (index - 2) with (index - 1 - 1) by lia.
        rewrite Hpy1, Hpy2.
        rewrite Hh1 in Hdin. injection Hdin as <-.
        rewrite Hh2 in Hdout. by injection Hdout as <-. }
  assert (init_bias hidden_dims num_classes
            (1 + Z.of_nat (length hidden_dims)) index = np_zeros [dout]) as ->.
  { unfold init_bias.
    destruct (Z.eqb_spec index (1 + Z.of_nat (length hidden_dims)))
      as [->|HnL].
    - rewrite dims_lookup_last in Hdout. by injection Hdout as <-.
    - destruct (dims_lookup_hidden hidden_dims input_dim num_classes index)
        as (h & -> & Hh); [lia|].
      rewrite Hh in Hdout. by injection Hdout as <-. }
  done.
Qed.

Lemma init_spec_cons weight_scale din dout rest g :
  init_spec weight_scale (din :: dout :: rest) g =
  ('(W, g) ← np_random_normal weight_scale [din; dout] g;
   b ← np_zeros [dout];
   '(ls, g) ← init_spec weight_scale (dout :: rest) g;
   Ok ((W, b) :: ls, g)).
Proof. done. Qed.

(** The loop over the layers [i .. L] against [init_spec] on the widths from
    [dims[i-1]] on. *)
Lemma init_loop_exact (n : nat) hidden_dims input_dim num_classes weight_scale
    i st :
  (1 ≤ length hidden_dims)%nat →
  i + Z.of_nat n = 1 + Z.of_nat (length hidden_dims) + 1 → 1 ≤ i →
  match init_spec weight_scale
          (drop (Z.to_nat (i - 1)) (input_dim :: hidden_dims ++ [num_classes]))
          st.2 with
  | Ok (ls, g') =>
      ∃ ps,
        for_each (init_layer hidden_dims input_dim num_classes weight_scale
                    (1 + Z.of_nat (length hidden_dims)))
                 (seqZ i (Z.of_nat n)) st = Ok (ps, g') ∧
        (∀ key, (∀ j, i ≤ j ≤ 1 + Z.of_nat (length hidden_dims) →
                      key ≠ fstr "W" j ∧ key ≠ fstr "b" j) →
                ps !! key = st.1 !! key) ∧
        mapM (layer_param ps) (seqZ i (Z.of_nat n)) = Some ls
  | Raise e =>
      for_each (init_layer hidden_dims input_dim num_classes weight_scale
                  (1 + Z.of_nat (length hidden_dims)))
               (seqZ i (Z.of_nat n)) st = Raise e
  end.
Proof.
  intros Hlen. set (dims := input_dim :: hidden_dims ++ [num_classes]).
  assert (length dims = S (S (length hidden_dims))) as Hdims.
  { subst dims. cbn. rewrite length_app. cbn. lia. }
  revert i st. induction n as [|n IH]; intros i st Hi Hi1.
  { rewrite seqZ_nil by lia.
    destruct (drop (Z.to_nat (i - 1)) dims) as [|d [|d' rest]] eqn:Hdrop.
    - cbn. exists st.1. by destruct st.
    - cbn. exists st.1. by destruct st.
    - apply (f_equal length) in Hdrop. rewrite length_drop, Hdims in Hdrop.
      cbn [length] in Hdrop. lia. }
  rewrite seqZ_cons by lia.
  replace (Z.pred (Z.of_nat (S n))) with (Z.of_nat n) by lia.
  destruct (lookup_lt_is_Some_2 dims (Z.to_nat (i - 1))) as [din Hdin];
    [lia|].
  destruct (lookup_lt_is_Some_2 dims (Z.to_nat i)) as [dout Hdout]; [lia|].
  assert (drop (Z.to_nat (i - 1)) dims
          = din :: drop (Z.to_nat (Z.succ i - 1)) dims) as Hdrop1.
  { replace (Z.to_nat (Z.succ i - 1)) with (S (Z.to_nat (i - 1))) by lia.
    by apply drop_S. }
  assert (drop (Z.to_nat (Z.succ i - 1)) dims
          = dout :: drop (S (Z.to_nat i)) dims) as Hdrop2.
  { replace (Z.to_nat (Z.succ i - 1)) with (Z.to_nat i) by lia.
    by apply drop_S. }
  rewrite Hdrop1, Hdrop2, init_spec_cons, <- Hdrop2. cbn [for_each].
  rewrite (init_layer_exact _ _ _ _ _ _ din dout) by (done || lia).
  destruct (np_random_normal weight_scale [din; dout] st.2) as [[W g1]|e];
    [|done].
  cbn [mbind outcome_bind].
  destruct (np_zeros [dout]) as [b|e]; [|done].
  cbn [mbind outcome_bind].
  specialize (IH (Z.succ i)
                (<[fstr "b" i := b]> (<[fstr "W" i := W]> st.1), g1)
                ltac:(lia) ltac:(lia)).
  cbn [fst snd] in IH.
  destruct (init_spec weight_scale (drop (Z.to_nat (Z.succ i - 1)) dims) g1)
    as [[ls g']|e]; [|done].
  cbn [mbind outcome_bind].
  destruct IH as (ps & Hrun & Hframe & Hls).
  exists ps. split; [done|].
  assert (ps !! fstr "W" i = Some W) as HW.
  { rewrite Hframe.
    - rewrite lookup_insert_ne by (symmetry; apply fstr_W_b).
      apply lookup_insert_eq.
    - intros j Hj. split; [intros ?%fstr_inj; lia | apply fstr_W_b]. }
  assert (ps !! fstr "b" i = Some b) as Hb.
  { rewrite Hframe; [apply lookup_insert_eq|].
    intros j Hj. split; [symmetry; apply fstr_W_b|].
    intros ?%fstr_inj; lia. }
  split.
  - intros key Hkey. rewrite Hframe by (intros j Hj; apply Hkey; lia).
    destruct (Hkey i) as [HkW Hkb]; [lia|].
    by rewrite !lookup_insert_ne.
  - rewrite mapM_option_cons, Hls. unfold layer_param. by rewrite HW, Hb.
Qed.

Lemma layer_param_cast (ps : gmap string array) dtype0 i :
  layer_param ((λ v, astype v dtype0) <$> ps) i
  = cast_layer dtype0 <$> layer_param ps i.
Proof.
  unfold layer_param. rewrite !lookup_fmap.
  destruct (ps !! fstr "W" i); [|done]. cbn.
  by destruct (ps !! fstr "b" i).
Qed.

Lemma mapM_layer_param_cast (ps : gmap string array) dtype0 (l : list Z)
    (ls : list (array * array)) :
  mapM (layer_param ps) l = Some ls →
  mapM (layer_param ((λ v, astype v dtype0) <$> ps)) l
  = Some (cast_layer dtype0 <$> ls).
Proof.
  revert ls. induction l as [|i l IH]; intros ls.
  { cbn. by intros [= <-]. }
  rewrite !mapM_option_cons, layer_param_cast.
  destruct (layer_param ps i) as [wb|]; [|done].
  destruct (mapM (layer_param ps) l) as [ls'|]; [|done].
  cbn. intros [= <-]. by rewrite (IH ls').
Qed.

(** X9.  With at least one hidden width, the constructor is [init_spec] on
    [input_dim :: hidden_dims ++ [num_classes]]: it raises what the first
    failing allocation raises, and otherwise returns the generator state after
    the last draw and a model whose layers [1 .. L] are the allocated arrays,
    cast to [dtype], in allocation order. *)
Theorem init_allocates_in_layer_order hidden_dims input_dim num_classes
    dropout ub reg0 weight_scale dtype0 seed g :
  hidden_dims ≠ [] →
  match init_spec weight_scale (input_dim :: hidden_dims ++ [num_classes]) g
  with
  | Ok (ls, g') =>
      ∃ self,
        __init__ hidden_dims input_dim num_classes dropout ub reg0
          weight_scale dtype0 seed g = Ok (self, g') ∧
        layers_of (params self) (num_layers self)
          = Some (cast_layer dtype0 <$> ls) ∧
        length ls = S (length hidden_dims)
  | Raise e =>
      __init__ hidden_dims input_dim num_classes dropout ub reg0
        weight_scale dtype0 seed g = Raise e
  end.
Proof.
  intros Hne.
  assert (1 ≤ length hidden_dims)%nat as Hlen.
  { destruct hidden_dims; [done|cbn; lia]. }
  pose proof (init_loop_exact (S (length hidden_dims)) hidden_dims input_dim
                num_classes weight_scale 1 (∅, g) Hlen ltac:(lia) ltac:(lia))
    as Hloop.
  change (drop (Z.to_nat (1 - 1)) ?l) with l in Hloop. cbn [fst snd] in Hloop.
  unfold __init__, py_range.
  replace (1 + Z.of_nat (length hidden_dims) + 1 - 1)
    with (Z.of_nat (S (length hidden_dims))) by lia.
  destruct (init_spec _ _ g) as [[ls g']|e].
  - destruct Hloop as (ps & -> & _ & Hls). cbn [mbind outcome_bind].
    eexists. split; [done|]. cbn [params num_layers].
    unfold layers_of, py_range.
    replace (1 + Z.of_nat (length hidden_dims) + 1 - 1)
      with (Z.of_nat (S (length hidden_dims))) by lia.
    split; [by apply mapM_layer_param_cast|].
    apply length_mapM in Hls. rewrite length_seqZ in Hls. lia.
  - by rewrite Hloop.
Qed.

End ConstructorExact.

(** ** The constructor and invalid configurations *)

Section ConstructorFailure.
Context `{B : Backend}.
Import FullyConnectedNet.



End ConstructorFailure.

(** ** From the constructor to the first scores *)

Section Composition.
Context `{B : Backend} `{!BackendLaws B} `{!AllocLaws B}.

Lemma forallb_pos (dims : list Z) :
  Forall (λ d, 0 < d) dims → forallb (λ d, 0 <? d) dims = true.
Proof.
  induction 1 as [|d dims Hd _ IH]; [done|].
  cbn. rewrite IH. by apply Z.ltb_lt in Hd as ->.
Qed.

(** A well-shaped network scores a batch of the right input size. *)
Lemma well_shaped_inference X (self : FullyConnectedNet.t) dims N ds D :
  well_shaped dims self = true →
  shape X = N :: ds → 0 < N → dims !! 0%nat = Some D → Zprod ds = D →
  ∃ scores C,
    outcome_of (FullyConnectedNet.loss X None self) =
      Ok (Scores (Some scores)) ∧
    last dims = Some C ∧ shape scores = [N; C] ∧
    fn <$> calls_of (FullyConnectedNet.loss X None self) =
      forward_calls (FullyConnectedNet.num_layers self).
Proof.
  intros Hwf HX HN HD Hds.
  destruct (loss_unfold X None self) as (-> & _ & ->). cbn [mode_of].
  destruct (loss_passes_test (astype X (FullyConnectedNet.dtype self)) None
              (set_modes None self)) as [-> ->].
  destruct (attrs_set_modes None self) as (_ & Hnl & _).
  unfold py_range. rewrite Hnl.
  unfold well_shaped in Hwf.
  apply andb_prop in Hwf as [Hwf Hok]. apply andb_prop in Hwf as [Hwf Hpos].
  apply andb_prop in Hwf as [HL HL1].
  apply Z.eqb_eq in HL. apply Z.leb_le in HL1.
  set (n := Z.to_nat (FullyConnectedNet.num_layers self)).
  replace (FullyConnectedNet.num_layers self + 1 - 1) with (Z.of_nat n)
    by lia.
  destruct (forward_loop_total n dims 1
              (astype X (FullyConnectedNet.dtype self)) None []
              (set_modes None self) N ds D)
    as (out & sc & cl & C & Hrun & Hlast & Hsc);
    [rewrite Hnl; lia | lia | lia | done
    | by rewrite params_set_modes
    | by rewrite shape_astype | done | done | done |].
  exists sc, C. rewrite Hrun. split_and!; try done.
  destruct (forward_loop_ok n 1 _ None [] (set_modes None self) _
              ltac:(rewrite Hnl; lia) ltac:(lia) Hrun)
    as (_ & _ & _ & _ & _ & _ & _ & ->).
  unfold forward_calls. f_equal. f_equal. lia.
Qed.

(** X10.  A network the constructor returned for positive widths scores any
    batch of [N] inputs whose trailing dimensions multiply to [input_dim]: a
    call without labels returns scores of shape [(N, num_classes)] after one
    forward primitive per layer. *)
Theorem init_then_inference hidden_dims input_dim num_classes dropout ub
    reg0 weight_scale dtype0 seed g self g' X N ds :
  FullyConnectedNet.__init__ hidden_dims input_dim num_classes dropout ub
    reg0 weight_scale dtype0 seed g = Ok (self, g') →
  Forall (λ d, 0 < d) (input_dim :: hidden_dims ++ [num_classes]) →
  shape X = N :: ds → 0 < N → Zprod ds = input_dim →
  ∃ scores,
    outcome_of (FullyConnectedNet.loss X None self) =
      Ok (Scores (Some scores)) ∧
    shape scores = [N; num_classes] ∧
    fn <$> calls_of (FullyConnectedNet.loss X None self) =
      forward_calls (1 + Z.of_nat (length hidden_dims)).
Proof.
  intros Hinit Hpos HX HN Hds.
  destruct (init_shapes _ _ _ _ _ _ _ _ _ _ _ _ Hinit)
    as (Hnl & _ & _ & Hok).
  destruct (well_shaped_inference X self
              (input_dim :: hidden_dims ++ [num_classes]) N ds input_dim)
    as (scores & C & Hrun & Hlast & Hsc & Hcalls); try done.
  { unfold well_shaped. rewrite Hok, (forallb_pos _ Hpos), Hnl.
    cbn [length]. rewrite length_app. cbn [length].
    rewrite !andb_true_r.
    apply andb_true_intro. split; [apply Z.eqb_eq | apply Z.leb_le]; lia. }
  exists scores. rewrite Hnl in Hcalls. split_and!; try done.
  rewrite Hsc. do 2 f_equal.
  change (input_dim :: hidden_dims ++ [num_classes])
    with ((input_dim :: hidden_dims) ++ [num_classes]) in Hlast.
  rewrite last_snoc in Hlast. by injection Hlast.
Qed.

(** X11.  A [TwoLayerNet] the constructor returned for positive sizes scores
    any batch of the right input size, and the call leaves it as it was. *)
Theorem two_layer_init_then_inference D H C weight_scale reg0 g self g'
    X N ds :
  TwoLayerNet.__init__ D H C weight_scale reg0 g = Ok (self, g') →
  0 < D → 0 < H → 0 < C →
  shape X = N :: ds → 0 < N → Zprod ds = D →
  TwoLayerNet.reg self = reg0 ∧
  dom (TwoLayerNet.params self) = param_keys 2 ∧
  ∃ scores,
    outcome_of (TwoLayerNet.loss X None self) = Ok (Scores (Some scores)) ∧
    shape scores = [N; C] ∧
    self_of (TwoLayerNet.loss X None self) = self.
Proof.
  unfold TwoLayerNet.__init__. intros Hinit HD HH HC HX HN Hds.
  destruct (np_random_normal weight_scale [D; H] g) as [[W1 g1]|] eqn:HW1;
    [|done].
  cbn [mbind outcome_bind] in Hinit.
  destruct (np_zeros [H]) as [b1|] eqn:Hb1; [|done].
  cbn [mbind outcome_bind] in Hinit.
  destruct (np_random_normal weight_scale [H; C] g1) as [[W2 g2]|] eqn:HW2;
    [|done].
  cbn [mbind outcome_bind] in Hinit.
  destruct (np_zeros [C]) as [b2|] eqn:Hb2; [|done].
  cbn [mbind outcome_bind] in Hinit. injection Hinit as <- <-.
  apply shape_np_random_normal in HW1, HW2. apply shape_np_zeros in Hb1, Hb2.
  split; [done|]. split.
  { cbn [TwoLayerNet.params]. rewrite !dom_insert_L, dom_empty_L.
    apply set_eq. intros key. rewrite elem_of_param_keys.
    rewrite !elem_of_union, !elem_of_singleton, elem_of_empty.
    change "W1" with (fstr "W" 1). change "b1" with (fstr "b" 1).
    change "W2" with (fstr "W" 2). change "b2" with (fstr "b" 2).
    split.
    - intros [?|[?|[?|[?|[]]]]]; [exists 2|exists 2|exists 1|exists 1];
        (split; [lia|auto]).
    - intros (j & Hj & Hkey).
      assert (j = 1 ∨ j = 2) as [-> | ->] by lia; destruct Hkey; auto 6. }
  destruct (two_layer_inference X
              (TwoLayerNet.Build
                 (<["b2" := b2]> (<["W2" := W2]> (<["b1" := b1]>
                    (<["W1" := W1]> ∅)))) reg0) D H C N ds)
    as (scores & Hrun & Hsc & _ & Hself); try done.
  { unfold well_shaped2, layer_ok. cbn [TwoLayerNet.params].
    change (fstr "W" 1) with "W1". change (fstr "b" 1) with "b1".
    change (fstr "W" 2) with "W2". change (fstr "b" 2) with "b2".
    assert ((0 <? D) = true) as -> by (apply Z.ltb_lt; lia).
    assert ((0 <? H) = true) as -> by (apply Z.ltb_lt; lia).
    assert ((0 <? C) = true) as -> by (apply Z.ltb_lt; lia).
    repeat (rewrite lookup_insert_eq || rewrite lookup_insert_ne by done).
    by rewrite !bool_decide_eq_true_2. }
  eauto.
Qed.

End Composition.

(** ** [FullyConnectedNet] at depth two and [TwoLayerNet] *)

Section DepthTwo.
Context `{B : Backend}.

(** X12.  [FullyConnectedNet] with one hidden width [H] allocates what
    [TwoLayerNet] allocates, from the same generator states and in the same
    order: it raises when [TwoLayerNet]'s constructor raises, the same
    exception, and otherwise returns the same generator state and the same
    parameters, cast to [dtype]. *)
Theorem init_one_hidden_layer D H C dropout ub reg0 weight_scale dtype0
    seed g :
  match TwoLayerNet.__init__ D H C weight_scale reg0 g with
  | Ok (two, g') =>
      ∃ self,
        FullyConnectedNet.__init__ [H] D C dropout ub reg0 weight_scale
          dtype0 seed g = Ok (self, g') ∧
        FullyConnectedNet.params self
          = (λ v, astype v dtype0) <$> TwoLayerNet.params two ∧
        FullyConnectedNet.num_layers self = 2 ∧
        FullyConnectedNet.reg self = TwoLayerNet.reg two
  | Raise e =>
      FullyConnectedNet.__init__ [H] D C dropout ub reg0 weight_scale
        dtype0 seed g = Raise e
  end.
Proof.
  unfold TwoLayerNet.__init__, FullyConnectedNet.__init__.
  change (py_range 1 (1 + Z.of_nat (length [H]) + 1)) with [1; 2].
  cbn [for_each].
  rewrite (init_layer_exact [H] D C weight_scale _ 1 D H)
    by (done || cbn; lia).
  cbn [fst snd].
  destruct (np_random_normal weight_scale [D; H] g) as [[W1 g1]|e]; [|done].
  cbn [mbind outcome_bind].
  destruct (np_zeros [H]) as [b1|e]; [|done].
  cbn [mbind outcome_bind].
  rewrite (init_layer_exact [H] D C weight_scale _ 2 H C)
    by (done || cbn; lia).
  cbn [fst snd].
  destruct (np_random_normal weight_scale [H; C] g1) as [[W2 g2]|e]; [|done].
  cbn [mbind outcome_bind].
  destruct (np_zeros [C]) as [b2|e]; [|done].
  cbn [mbind outcome_bind].
  eexists. split; [done|]. by split_and!.
Qed.

End DepthTwo.

Section DepthTwoLoss.
Context `{B : Backend}.
Import FullyConnectedNet.

Lemma bind_run {S A C} (m : M S A) (f : A → M S C) s o s' cs :
  m s = Run o s' cs →
  m_bind m f s =
    match o with
    | Ok a => Run (outcome_of (f a s')) (self_of (f a s'))
                  (cs ++ calls_of (f a s'))
    | Raise e => Run (Raise e) s' cs
    end.
Proof. intros H. unfold m_bind. rewrite H. cbn. by destruct o. Qed.

(** Two parameter reads and a primitive call, as [TwoLayerNet.loss] has them
    twice. *)
Lemma two_layer_step {A} x kW kb name
    (prim : array → array → array → outcome (array * cache))
    (k : array * cache → M TwoLayerNet.t A) (two : TwoLayerNet.t) :
  m_bind (TwoLayerNet.get_param kW) (λ W,
    m_bind (TwoLayerNet.get_param kb) (λ b,
      m_bind (m_call name [AArr x; AArr W; AArr b] (prim x W b)) k)) two =
  match TwoLayerNet.params two !! kW with
  | None => Run (Raise KeyError) two []
  | Some W =>
      match TwoLayerNet.params two !! kb with
      | None => Run (Raise KeyError) two []
      | Some b =>
          match prim x W b with
          | Raise e => Run (Raise e) two [Call name [AArr x; AArr W; AArr b]]
          | Ok oc =>
              Run (outcome_of (k oc two)) (self_of (k oc two))
                  (Call name [AArr x; AArr W; AArr b] :: calls_of (k oc two))
          end
      end
  end.
Proof.
  unfold TwoLayerNet.get_param, m_bind, m_get, m_lift, m_call, py_getitem.
  cbn. destruct (TwoLayerNet.params two !! kW) as [W|]; [|done]. cbn.
  destruct (TwoLayerNet.params two !! kb) as [b|]; [|done]. cbn.
  by destruct (prim x W b).
Qed.

Lemma forward_layer_step st index self :
  forward_layer st index self =
  match params self !! fstr "W" index with
  | None => Run (Raise KeyError) self []
  | Some W =>
      match params self !! fstr "b" index with
      | None => Run (Raise KeyError) self []
      | Some b =>
          if negb (index =? num_layers self) then
            Run (match affine_relu_forward st.1.1 W b with
                 | Ok (o, c) => Ok (o, st.1.2, st.2 ++ [c])
                 | Raise e => Raise e
                 end) self
                [Call "affine_relu_forward" [AArr st.1.1; AArr W; AArr b]]
          else
            Run (match affine_forward st.1.1 W b with
                 | Ok (o, c) => Ok (st.1.1, Some o, st.2 ++ [c])
                 | Raise e => Raise e
                 end) self
                [Call "affine_forward" [AArr st.1.1; AArr W; AArr b]]
      end
  end.
Proof.
  destruct st as [[output scores] cache_list]. cbn [fst snd].
  destruct (params self !! fstr "W" index) as [W|] eqn:HW.
  - destruct (params self !! fstr "b" index) as [b|] eqn:Hb.
    + by apply forward_layer_run.
    + apply forward_layer_missing. right. by rewrite HW.
  - apply forward_layer_missing. by left.
Qed.

(** The forward loop at depth two against the body of [TwoLayerNet.loss]. *)
Lemma two_layer_forward X (two : TwoLayerNet.t) (self : t) :
  num_layers self = 2 →
  params self = TwoLayerNet.params two →
  outcome_of (TwoLayerNet.loss X None two) =
    match outcome_of (m_for forward_layer [1; 2] (X, None, []) self) with
    | Ok (_, scores, _) => Ok (Scores scores)
    | Raise e => Raise e
    end ∧
  calls_of (TwoLayerNet.loss X None two) =
    calls_of (m_for forward_layer [1; 2] (X, None, []) self).
Proof.
  intros Hnl Hps. cbn [m_for].
  pose proof (forward_layer_step (X, None, []) 1 self) as H1.
  rewrite Hnl, Hps in H1. cbn [fst snd app] in H1.
  change (negb (1 =? 2)) with true in H1. cbv iota in H1.
  change (fstr "W" 1) with "W1" in H1. change (fstr "b" 1) with "b1" in H1.
  unfold TwoLayerNet.loss. rewrite two_layer_step.
  destruct (TwoLayerNet.params two !! "W1") as [W1|];
    [|by rewrite (bind_run _ _ _ _ _ _ H1)].
  destruct (TwoLayerNet.params two !! "b1") as [b1|];
    [|by rewrite (bind_run _ _ _ _ _ _ H1)].
  rewrite (bind_run _ _ _ _ _ _ H1). clear H1.
  destruct (affine_relu_forward X W1 b1) as [[h c1]|]; [|done].
  pose proof (forward_layer_step (h, None, [c1]) 2 self) as H2.
  rewrite Hnl, Hps in H2. cbn [fst snd app] in H2.
  change (negb (2 =? 2)) with false in H2. cbv iota in H2.
  change (fstr "W" 2) with "W2" in H2. change (fstr "b" 2) with "b2" in H2.
  rewrite two_layer_step.
  destruct (TwoLayerNet.params two !! "W2") as [W2|];
    [|by rewrite (bind_run _ _ _ _ _ _ H2)].
  destruct (TwoLayerNet.params two !! "b2") as [b2|];
    [|by rewrite (bind_run _ _ _ _ _ _ H2)].
  rewrite (bind_run _ _ _ _ _ _ H2). clear H2.
  by destruct (affine_forward h W2 b2) as [[sc c2]|].
Qed.

(** X13.  Without labels, a [FullyConnectedNet] of depth two is a
    [TwoLayerNet] with the same parameters, applied to the cast input: the
    two calls return the same scores or raise the same exception, after the
    same primitive calls on the same arguments. *)
Theorem depth_two_inference_is_two_layer X (two : TwoLayerNet.t) (self : t) :
  num_layers self = 2 →
  params self = TwoLayerNet.params two →
  outcome_of (loss X None self) =
    outcome_of (TwoLayerNet.loss (astype X (dtype self)) None two) ∧
  calls_of (loss X None self) =
    calls_of (TwoLayerNet.loss (astype X (dtype self)) None two).
Proof.
  intros Hnl Hps.
  destruct (loss_unfold X None self) as (-> & _ & ->). cbn [mode_of].
  destruct (loss_passes_test (astype X (dtype self)) None
              (set_modes None self)) as [-> ->].
  destruct (attrs_set_modes None self) as (_ & Hnl' & _).
  rewrite Hnl', Hnl. change (py_range 1 (2 + 1)) with [1; 2].
  destruct (two_layer_forward (astype X (dtype self)) two
              (set_modes None self)) as [-> ->]; try done.
  - congruence.
  - by rewrite params_set_modes.
Qed.

End DepthTwoLoss.

Section DepthTwoTraining.
Context `{B : Backend}.
Import FullyConnectedNet.

(** X14.  With labels, whenever a [FullyConnectedNet] of depth two returns a
    loss and gradients, a [TwoLayerNet] with the same parameters and the same
    regularization strength returns, on the cast input, the very same
    gradient dictionary, and a loss built from the same data loss and the
    same two squared norms: [FullyConnectedNet] sums the norms with [np.sum]
    and scales by [0.5 * reg], [TwoLayerNet] adds them and scales by
    [reg * 0.5]. *)
Theorem depth_two_training_is_two_layer X y (two : TwoLayerNet.t) (self : t)
    l grads :
  num_layers self = 2 →
  params self = TwoLayerNet.params two →
  reg self = TwoLayerNet.reg two →
  outcome_of (loss X (Some y) self) = Ok (LossGrads l grads) →
  ∃ softmax n1 n2,
    outcome_of (TwoLayerNet.loss (astype X (dtype self)) (Some y) two) =
      Ok (LossGrads
            (s_add softmax
               (s_mul (s_mul (TwoLayerNet.reg two) s_half) (s_add n1 n2)))
            grads) ∧
    l = s_add softmax (s_mul (s_mul s_half (reg self)) (np_sum [n1; n2])).
Proof.
  intros Hnl Hps Hreg Hr.
  apply loss_train_ok in Hr
    as (ls & scores & cs & softmax & dscores & norms & dx & gs & grads' &
        Hls & Hlen & Hf & Hsm & Hn & Hb & [= -> ->] & Hframe & Hlook & _).
  rewrite Hnl in Hls, Hlen. rewrite Hps in Hls. rewrite Hreg in Hlook.
  destruct ls as [|[W1 b1] [|[W2 b2] [|? ?]]]; try (cbn in Hlen; lia).
  clear Hlen.
  unfold layers_of in Hls. change (py_range 1 (2 + 1)) with [1; 2] in Hls.
  apply mapM_Some_1 in Hls.
  apply Forall2_cons_1 in Hls as [H1 Hls].
  apply Forall2_cons_1 in Hls as [H2 _].
  apply layer_param_inv in H1 as [HW1 Hb1].
  apply layer_param_inv in H2 as [HW2 Hb2].
  change (fstr "W" 1) with "W1" in HW1. change (fstr "b" 1) with "b1" in Hb1.
  change (fstr "W" 2) with "W2" in HW2. change (fstr "b" 2) with "b2" in Hb2.
  rewrite forward_spec_hidden in Hf.
  destruct (affine_relu_forward (astype X (dtype self)) W1 b1)
    as [[h c1]|] eqn:Hf1; [|done].
  cbn [mbind outcome_bind] in Hf. rewrite forward_spec_last in Hf.
  destruct (affine_forward h W2 b2) as [[sc c2]|] eqn:Hf2; [|done].
  cbn [mbind outcome_bind] in Hf. injection Hf as -> <-.
  unfold norms_spec in Hn.
  apply Forall2_cons_inv_l in Hn as (q1 & norms1 & (n1 & Hn1 & ->) & Hn & ->).
  apply Forall2_cons_inv_l in Hn as (q2 & norms2 & (n2 & Hn2 & ->) & Hn & ->).
  apply Forall2_nil_inv_l in Hn as ->. cbn [fst] in Hn1, Hn2.
  rewrite backward_spec_hidden in Hb.
  rewrite backward_spec_last in Hb.
  destruct (affine_backward dscores c2) as [[[dh dW2] db2]|] eqn:Hbk2;
    [|done].
  cbn [mbind outcome_bind] in Hb.
  destruct (affine_relu_backward dh c1) as [[[dx' dW1] db1]|] eqn:Hbk1;
    [|done].
  cbn [mbind outcome_bind] in Hb. injection Hb as -> <-.
  destruct (Hlook 0%nat W1 b1 dW1 db1 eq_refl eq_refl)
    as (gW1 & Ha1 & HgW1 & Hgb1).
  destruct (Hlook 1%nat W2 b2 dW2 db2 eq_refl eq_refl)
    as (gW2 & Ha2 & HgW2 & Hgb2).
  change (fstr "W" (1 + Z.of_nat 0)) with "W1" in HgW1.
  change (fstr "b" (1 + Z.of_nat 0)) with "b1" in Hgb1.
  change (fstr "W" (1 + Z.of_nat 1)) with "W2" in HgW2.
  change (fstr "b" (1 + Z.of_nat 1)) with "b2" in Hgb2.
  exists softmax, (s_sq n1), (s_sq n2). split; [|done].
  assert (∀ key W, TwoLayerNet.params two !! key = Some W →
            outcome_of (TwoLayerNet.get_param key two) = Ok W) as Hget.
  { intros key W HW. rewrite two_layer_get_param. cbn. unfold py_getitem.
    by rewrite HW. }
  assert (<["b1" := db1]> (<["W1" := gW1]> (<["b2" := db2]>
            (<["W2" := gW2]> ∅))) = grads') as Hgrads.
  { apply map_eq. intros key.
    destruct (decide (key = "b1")) as [->|?];
      [by rewrite lookup_insert_eq|rewrite lookup_insert_ne by done].
    destruct (decide (key = "W1")) as [->|?];
      [by rewrite lookup_insert_eq|rewrite lookup_insert_ne by done].
    destruct (decide (key = "b2")) as [->|?];
      [by rewrite lookup_insert_eq|rewrite lookup_insert_ne by done].
    destruct (decide (key = "W2")) as [->|?];
      [by rewrite lookup_insert_eq|rewrite lookup_insert_ne by done].
    rewrite lookup_empty. symmetry. apply Hframe. intros j Hj.
    cbn [length] in Hj.
    assert (j = 1 ∨ j = 2) as [-> | ->] by lia; by split. }
  unfold TwoLayerNet.loss.
  rewrite (bind_ok_run _ _ _ W1) by auto. tl_step HW1.
  rewrite (bind_ok_run _ _ _ b1) by auto. tl_step HW1.
  rewrite (bind_ok_run _ _ _ (h, c1)) by done. tl_step HW1.
  rewrite (bind_ok_run _ _ _ W2) by auto. tl_step HW1.
  rewrite (bind_ok_run _ _ _ b2) by auto. tl_step HW1.
  rewrite (bind_ok_run _ _ _ (scores, c2)) by done. tl_step HW1.
  rewrite (bind_ok_run _ _ _ W1) by auto. tl_step HW1.
  rewrite (bind_ok_run _ _ _ n1) by done. tl_step HW1.
  rewrite (bind_ok_run _ _ _ W2) by auto. tl_step HW1.
  rewrite (bind_ok_run _ _ _ n2) by done. tl_step HW1.
  rewrite (bind_ok_run _ _ _ (softmax, dscores)) by done. tl_step HW1.
  rewrite (bind_ok_run _ _ _ two) by done. tl_step HW1.
  rewrite (bind_ok_run _ _ _ (dh, dW2, db2)) by done. tl_step HW1.
  rewrite (bind_ok_run _ _ _ two) by done. tl_step HW1.
  rewrite (bind_ok_run _ _ _ W2) by auto. tl_step HW1.
  rewrite (bind_ok_run _ _ _ gW2) by done. tl_step HW1.
  rewrite (bind_ok_run _ _ _ (dx, dW1, db1)) by done. tl_step HW1.
  rewrite (bind_ok_run _ _ _ two) by done. tl_step HW1.
  rewrite (bind_ok_run _ _ _ W1) by auto. tl_step HW1.
  rewrite (bind_ok_run _ _ _ gW1) by done. tl_step HW1.
  by rewrite Hgrads.
Qed.

End DepthTwoTraining.

(** ** The parameters of every network a program can hold *)

Section ReachableShapes.
Context `{B : Backend} `{!BackendLaws B} `{!AllocLaws B}.
Import FullyConnectedNet.

(** X15.  On every network object a program can hold, whatever calls to
    [loss] were made since the constructor returned: there are at least two
    layers, the parameter dictionary has exactly the keys [W1 .. WL],
    [b1 .. bL], and the shapes chain: there are widths [d0 .. dL] with [W_i]
    of shape [(d(i-1), d(i))] and [b_i] of shape [(d(i),)]. *)
Theorem reachable_params_chain (self : t) :
  reachable self →
  2 ≤ num_layers self ∧
  dom (params self) = param_keys (num_layers self) ∧
  ∃ dims, Z.of_nat (length dims) = num_layers self + 1 ∧
          layers_ok (params self) 1 dims = true.
Proof.
  induction 1 as [hidden_dims input_dim num_classes dropout ub reg0
                    weight_scale dtype0 seed g self g' Hinit
                 |self X y _ IH].
  - destruct (init_shapes _ _ _ _ _ _ _ _ _ _ _ _ Hinit)
      as (Hnl & Hdom & _ & Hok).
    split_and!; [|done|].
    + destruct hidden_dims as [|h hs].
      * change (Raise IndexError = Ok (self, g')) in Hinit. discriminate.
      * rewrite Hnl. cbn [length]. lia.
    + exists (input_dim :: hidden_dims ++ [num_classes]). split; [|done].
      rewrite Hnl. cbn [length]. rewrite length_app. cbn [length]. lia.
  - rewrite loss_self, params_set_modes.
    by destruct (attrs_set_modes y self) as (_ & -> & _).
Qed.

End ReachableShapes.

#[global] Instance symbolic_alloc_laws : AllocLaws Symbolic.backend.
Proof.
  split.
  - intros scale sh g a g'. cbn. unfold Symbolic.s_random_normal.
    case_match; [|done]. by intros [= <- _].
  - intros sh a. cbn. unfold Symbolic.s_zeros.
    case_match; [|done]. by intros [= <-].
Qed.

(** ** The further properties on the example networks *)

Lemma layers_full :
  layers_of (FullyConnectedNet.params Examples.net_full)
            (FullyConnectedNet.num_layers Examples.net_full)
  = Some Examples.layers_4_3_2.
Proof.
  exact (layers_of_two (B := Symbolic.backend) Examples.params_4_3_2
           _ _ _ _ eq_refl eq_refl eq_refl eq_refl).
Qed.

Lemma forward_full_bad_labels :
  ∃ scores cs,
    forward_spec (astype Examples.X "float64") Examples.layers_4_3_2
      = Ok (scores, cs) ∧
    softmax_loss scores Examples.y_bad = Raise IndexError.
Proof. eexists _, _. split; vm_compute; reflexivity. Qed.

Lemma loss_inference_exact_witness :
  1 ≤ FullyConnectedNet.num_layers Examples.net_full ∧
  layers_of (FullyConnectedNet.params Examples.net_full)
            (FullyConnectedNet.num_layers Examples.net_full)
    = Some Examples.layers_4_3_2 ∧
  outcome_of (FullyConnectedNet.loss Examples.X None Examples.net_full) =
    match forward_spec (astype Examples.X "float64") Examples.layers_4_3_2 with
    | Ok (scores, _) => Ok (Scores (Some scores))
    | Raise e => Raise e
    end ∧
  (returns (forward_spec (astype Examples.X "float64") Examples.layers_4_3_2) →
   fn <$> calls_of (FullyConnectedNet.loss Examples.X None Examples.net_full)
   = forward_calls 2).
Proof.
  assert (1 ≤ 2) as H1 by lia.
  split; [exact H1|]. split; [exact layers_full|].
  exact (loss_inference_exact (B := Symbolic.backend) Examples.X
           Examples.net_full Examples.layers_4_3_2 H1 layers_full).
Defined.

Lemma loss_missing_first_layer_witness :
  is_Some (FullyConnectedNet.params Examples.net_no_b1 !! "W1") ∧
  FullyConnectedNet.params Examples.net_no_b1 !! "b1" = None ∧
  outcome_of (FullyConnectedNet.loss Examples.X (Some Examples.y)
                Examples.net_no_b1) = Raise KeyError ∧
  calls_of (FullyConnectedNet.loss Examples.X (Some Examples.y)
              Examples.net_no_b1) = [].
Proof.
  assert (1 ≤ 2) as H1 by lia.
  assert (is_Some (FullyConnectedNet.params Examples.net_no_b1 !! "W1"))
    as HW by (eexists; reflexivity).
  assert (FullyConnectedNet.params Examples.net_no_b1 !! "b1" = None)
    as Hb by reflexivity.
  split; [exact HW|]. split; [exact Hb|].
  exact (loss_missing_first_layer (B := Symbolic.backend) Examples.X
           (Some Examples.y) Examples.net_no_b1 H1 (or_intror (conj HW Hb))).
Defined.

Lemma loss_softmax_raises_witness :
  ∃ scores cs,
    forward_spec (astype Examples.X "float64") Examples.layers_4_3_2
      = Ok (scores, cs) ∧
    softmax_loss scores Examples.y_bad = Raise IndexError ∧
    outcome_of (FullyConnectedNet.loss Examples.X (Some Examples.y_bad)
                  Examples.net_full) = Raise IndexError ∧
    fn <$> calls_of (FullyConnectedNet.loss Examples.X (Some Examples.y_bad)
                       Examples.net_full)
    = ["affine_relu_forward"; "affine_forward"; "softmax_loss"].
Proof.
  assert (1 ≤ 2) as H1 by lia.
  destruct forward_full_bad_labels as (scores & cs & Hf & Hsm).
  exists scores, cs. split; [exact Hf|]. split; [exact Hsm|].
  exact (loss_softmax_raises (B := Symbolic.backend) Examples.X
           Examples.y_bad Examples.net_full Examples.layers_4_3_2 scores cs
           IndexError H1 layers_full Hf Hsm).
Defined.

Lemma loss_train_uses_inference_scores_witness :
  ∃ l grads,
    outcome_of (FullyConnectedNet.loss Examples.X (Some Examples.y)
                  Examples.net_full) = Ok (LossGrads l grads) ∧
    ∃ scores softmax dscores ls norms,
      outcome_of (FullyConnectedNet.loss Examples.X None Examples.net_full)
        = Ok (Scores (Some scores)) ∧
      softmax_loss scores Examples.y = Ok (softmax, dscores) ∧
      layers_of (FullyConnectedNet.params Examples.net_full) 2 = Some ls ∧
      norms_spec ls norms ∧
      l = s_add softmax
            (s_mul (s_mul s_half (Symbolic.TLit (1 # 10))) (np_sum norms)).
Proof.
  destruct (returned_grads_inv _ train_full_returns) as (l & grads & Hr).
  exists l, grads. split; [exact Hr|].
  exact (loss_train_uses_inference_scores (B := Symbolic.backend) Examples.X
           Examples.y Examples.net_full l grads Hr).
Defined.

Lemma bn_mode_always_train_witness :
  reachable (self_of (FullyConnectedNet.loss Examples.X None
                        Examples.net_full)) ∧
  Forall (λ bn : dict, bn !! "mode" = Some (PStr "train"))
    (FullyConnectedNet.bn_params
       (self_of (FullyConnectedNet.loss Examples.X None Examples.net_full))) ∧
  (FullyConnectedNet.use_batchnorm
     (self_of (FullyConnectedNet.loss Examples.X None Examples.net_full))
   = true →
   Z.of_nat (length (FullyConnectedNet.bn_params
       (self_of (FullyConnectedNet.loss Examples.X None Examples.net_full))))
   = FullyConnectedNet.num_layers
       (self_of (FullyConnectedNet.loss Examples.X None Examples.net_full))
     - 1).
Proof.
  pose proof (reachable_loss (B := Symbolic.backend) Examples.net_full
                Examples.X None reachable_full) as Hr.
  split; [exact Hr|].
  exact (bn_mode_always_train (B := Symbolic.backend) _ Hr).
Defined.

Lemma init_parameter_shapes_witness :
  Examples.make [3] (1 # 2) true = Ok (Examples.net_full, 2) ∧
  FullyConnectedNet.num_layers Examples.net_full
    = 1 + Z.of_nat (length [3]) ∧
  dom (FullyConnectedNet.params Examples.net_full) = param_keys 2 ∧
  ∀ i, 1 ≤ i ≤ 2 →
    ∃ W b din dout,
      (4 :: [3] ++ [2]) !! Z.to_nat (i - 1) = Some din ∧
      (4 :: [3] ++ [2]) !! Z.to_nat i = Some dout ∧
      FullyConnectedNet.params Examples.net_full !! fstr "W" i = Some W ∧
      FullyConnectedNet.params Examples.net_full !! fstr "b" i = Some b ∧
      shape W = [din; dout] ∧ shape b = [dout].
Proof.
  split; [exact make_full|].
  exact (init_parameter_shapes (B := Symbolic.backend) [3] 4 2 (1 # 2)%Q true
           (Symbolic.TLit (1 # 10)) (Symbolic.TLit (1 # 100)) "float64"
           (Some 7) 0 Examples.net_full 2 make_full).
Defined.

Lemma init_allocates_in_layer_order_witness :
  [3] ≠ ([] : list Z) ∧
  match init_spec (Symbolic.TLit (1 # 100)) (4 :: [3] ++ [2]) 0 with
  | Ok (ls, g') =>
      ∃ self,
        Examples.make [3] (1 # 2) true = Ok (self, g') ∧
        layers_of (FullyConnectedNet.params self)
                  (FullyConnectedNet.num_layers self)
          = Some (cast_layer "float64" <$> ls) ∧
        length ls = 2%nat
  | Raise e => Examples.make [3] (1 # 2) true = Raise e
  end.
Proof.
  assert ([3] ≠ ([] : list Z)) as Hne by discriminate.
  split; [exact Hne|].
  exact (init_allocates_in_layer_order (B := Symbolic.backend) [3] 4 2
           (1 # 2)%Q true (Symbolic.TLit (1 # 10)) (Symbolic.TLit (1 # 100))
           "float64" (Some 7) 0 Hne).
Defined.

Lemma init_then_inference_witness :
  Examples.make [3] (1 # 2) true = Ok (Examples.net_full, 2) ∧
  Forall (λ d, 0 < d) (4 :: [3] ++ [2]) ∧
  ∃ scores,
    outcome_of (FullyConnectedNet.loss Examples.X None Examples.net_full)
      = Ok (Scores (Some scores)) ∧
    shape scores = [5; 2] ∧
    fn <$> calls_of (FullyConnectedNet.loss Examples.X None Examples.net_full)
      = forward_calls (1 + Z.of_nat (length [3])).
Proof.
  assert (Forall (λ d, 0 < d) (4 :: [3] ++ [2])) as Hpos
    by (repeat constructor).
  split; [exact make_full|]. split; [exact Hpos|].
  exact (init_then_inference (B := Symbolic.backend) [3] 4 2 (1 # 2)%Q true
           (Symbolic.TLit (1 # 10)) (Symbolic.TLit (1 # 100)) "float64"
           (Some 7) 0 Examples.net_full 2 Examples.X 5 [2; 2]
           make_full Hpos eq_refl eq_refl eq_refl).
Defined.

Lemma two_layer_init_then_inference_witness :
  Examples.make2 = Ok (Examples.net2, 2) ∧
  TwoLayerNet.reg Examples.net2 = Symbolic.TLit (1 # 10) ∧
  dom (TwoLayerNet.params Examples.net2) = param_keys 2 ∧
  ∃ scores,
    outcome_of (TwoLayerNet.loss Examples.X None Examples.net2)
      = Ok (Scores (Some scores)) ∧
    shape scores = [5; 2] ∧
    self_of (TwoLayerNet.loss Examples.X None Examples.net2) = Examples.net2.
Proof.
  split; [exact make2_net2|].
  exact (two_layer_init_then_inference (B := Symbolic.backend) 4 3 2
           (Symbolic.TLit (1 # 100)) (Symbolic.TLit (1 # 10)) 0
           Examples.net2 2 Examples.X 5 [2; 2]
           make2_net2 eq_refl eq_refl eq_refl eq_refl eq_refl eq_refl).
Defined.

Lemma depth_two_inference_is_two_layer_witness :
  FullyConnectedNet.num_layers Examples.net_full = 2 ∧
  FullyConnectedNet.params Examples.net_full
    = TwoLayerNet.params Examples.two_cast ∧
  outcome_of (FullyConnectedNet.loss Examples.X None Examples.net_full) =
    outcome_of (TwoLayerNet.loss (astype Examples.X "float64") None
                  Examples.two_cast) ∧
  calls_of (FullyConnectedNet.loss Examples.X None Examples.net_full) =
    calls_of (TwoLayerNet.loss (astype Examples.X "float64") None
                Examples.two_cast).
Proof.
  split; [reflexivity|]. split; [reflexivity|].
  exact (depth_two_inference_is_two_layer (B := Symbolic.backend) Examples.X
           Examples.two_cast Examples.net_full eq_refl eq_refl).
Defined.

Lemma depth_two_training_is_two_layer_witness :
  ∃ l grads,
    outcome_of (FullyConnectedNet.loss Examples.X (Some Examples.y)
                  Examples.net_full) = Ok (LossGrads l grads) ∧
    ∃ softmax n1 n2,
      outcome_of (TwoLayerNet.loss (astype Examples.X "float64")
                    (Some Examples.y) Examples.two_cast) =
        Ok (LossGrads
              (s_add softmax
                 (s_mul (s_mul (Symbolic.TLit (1 # 10)) s_half)
                        (s_add n1 n2)))
              grads) ∧
      l = s_add softmax
            (s_mul (s_mul s_half (Symbolic.TLit (1 # 10)))
                   (np_sum [n1; n2])).
Proof.
  destruct (returned_grads_inv _ train_full_returns) as (l & grads & Hr).
  exists l, grads. split; [exact Hr|].
  exact (depth_two_training_is_two_layer (B := Symbolic.backend) Examples.X
           Examples.y Examples.two_cast Examples.net_full l grads
           eq_refl eq_refl eq_refl Hr).
Defined.

Lemma reachable_params_chain_witness :
  reachable Examples.net_full ∧
  2 ≤ FullyConnectedNet.num_layers Examples.net_full ∧
  dom (FullyConnectedNet.params Examples.net_full) = param_keys 2 ∧
  ∃ dims, Z.of_nat (length dims) = 2 + 1 ∧
          layers_ok (FullyConnectedNet.params Examples.net_full) 1 dims
          = true.
Proof.
  split; [exact reachable_full|].
  exact (reachable_params_chain (B := Symbolic.backend) Examples.net_full
           reachable_full).
Defined.

